(** * Sepolia faucet: the address validator, the cooldown tracker and the
      [POST /api/faucet] handler

    The development follows the two programs of the repository:
    - the React form ([App.js], twice, with the same logic), whose
      [isValidAddress] is the regular expression [/^0x[a-fA-F0-9]{40}$/];
    - the Express server ([server.js]), whose handler validates the address,
      consults the in-memory [addressCooldowns] map, reads two balances,
      broadcasts the transfer, records the cooldown and waits for one
      confirmation.

    JavaScript strings are modelled as [string] (the characters an address
    can contain are ASCII), numbers holding millisecond timestamps and
    [bigint] balances as [Z], the [Map] as a [gmap string Z]. *)

From Stdlib Require Import ZArith NArith String Ascii List Bool Lia DecimalString.
From stdpp Require Import base option gmap strings.

Local Open Scope string_scope.

(** ** Strings *)

Module JsString.

(** [String.prototype.toLowerCase] on the ASCII letters. *)
Definition lower_char (c : ascii) : ascii :=
  let n := N_of_ascii c in
  if ((65 <=? n) && (n <=? 90))%N then ascii_of_N (n + 32) else c.

Fixpoint toLowerCase (s : string) : string :=
  match s with
  | EmptyString => EmptyString
  | String c rest => String (lower_char c) (toLowerCase rest)
  end.

(** [!s] for a string: only the empty string is falsy. *)
Definition falsy (s : string) : bool :=
  match s with
  | EmptyString => true
  | String _ _ => false
  end.

End JsString.

(** ** More of [String.prototype] *)

Module JsStringOps.

(** [String.prototype.toUpperCase] on the ASCII letters. *)
Definition upper_char (c : ascii) : ascii :=
  let n := N_of_ascii c in
  if ((97 <=? n) && (n <=? 122))%N then ascii_of_N (n - 32) else c.

Fixpoint toUpperCase (s : string) : string :=
  match s with
  | EmptyString => EmptyString
  | String c rest => String (upper_char c) (toUpperCase rest)
  end.

(** [s] without the prefix [pat], when it starts with it. *)
Fixpoint strip_prefix (pat s : string) : option string :=
  match pat with
  | EmptyString => Some s
  | String p pat' =>
      match s with
      | EmptyString => None
      | String c s' => if Ascii.eqb p c then strip_prefix pat' s' else None
      end
  end.

(** [s.replace(pat, rep)] for a string pattern: the first occurrence of
    [pat], wherever it is, is replaced, and only that one.  ([rep] is taken
    as it is, which is what JavaScript does when it holds no [$].) *)
Fixpoint replace (pat rep s : string) : string :=
  match strip_prefix pat s with
  | Some rest => rep +:+ rest
  | None =>
      match s with
      | EmptyString => EmptyString
      | String c s' => String c (replace pat rep s')
      end
  end.

(** [`${v}`] for a value that is a string or [undefined]. *)
Definition interpolate (v : option string) : string :=
  match v with
  | Some s => s
  | None => "undefined"
  end.

End JsStringOps.

(** ** Regular expressions: the fragment the sources use

    Literals, character classes made of ranges, sequencing and the bounded
    repetition [r{n}].  Every pattern of the sources is anchored with [^]
    and [$] and carries no flag, so that [test] succeeds exactly when the
    pattern consumes the whole input. *)

Module Regex.

Inductive re : Type :=
| Lit (c : ascii)
| Class (ranges : list (ascii * ascii))
| Seq (r1 r2 : re)
| Repeat (r : re) (n : nat).

Definition in_range (c : ascii) (rg : ascii * ascii) : bool :=
  ((N_of_ascii (fst rg) <=? N_of_ascii c) && (N_of_ascii c <=? N_of_ascii (snd rg)))%N.

Definition in_class (ranges : list (ascii * ascii)) (c : ascii) : bool :=
  existsb (in_range c) ranges.

(** [eat r s]: the rest of [s] once [r] has matched a prefix of it.  The
    fragment has neither alternation nor a star, so a pattern matches at
    most one prefix. *)
Fixpoint eat (r : re) (s : string) {struct r} : option string :=
  match r with
  | Lit c =>
      match s with
      | String d rest => if Ascii.eqb c d then Some rest else None
      | EmptyString => None
      end
  | Class ranges =>
      match s with
      | String d rest => if in_class ranges d then Some rest else None
      | EmptyString => None
      end
  | Seq r1 r2 =>
      match eat r1 s with
      | Some rest => eat r2 rest
      | None => None
      end
  | Repeat r1 n =>
      (fix times (k : nat) (s : string) : option string :=
         match k with
         | O => Some s
         | S k' =>
             match eat r1 s with
             | Some rest => times k' rest
             | None => None
             end
         end) n s
  end.

(** [/^r$/.test(s)] *)
Definition test (r : re) (s : string) : bool :=
  match eat r s with
  | Some EmptyString => true
  | _ => false
  end.

(** The words of a pattern. *)
Inductive matches : re -> string -> Prop :=
| m_lit c : matches (Lit c) (String c EmptyString)
| m_class ranges c :
    in_class ranges c = true -> matches (Class ranges) (String c EmptyString)
| m_seq r1 r2 s1 s2 :
    matches r1 s1 -> matches r2 s2 -> matches (Seq r1 r2) (s1 +:+ s2)
| m_repeat_O r : matches (Repeat r 0) EmptyString
| m_repeat_S r n s1 s2 :
    matches r s1 -> matches (Repeat r n) s2 -> matches (Repeat r (S n)) (s1 +:+ s2).

End Regex.

(** ** The form's validator ([App.js], lines 30-32) *)

Module Frontend.

Import Regex.

(** [/^0x[a-fA-F0-9]{40}$/] *)
Definition address_re : re :=
  Seq (Lit "0") (Seq (Lit "x")
    (Repeat (Class [("a", "f"); ("A", "F"); ("0", "9")]%char) 40)).

Definition isValidAddress (address : string) : bool :=
  test address_re address.

End Frontend.

(** The address shape in the words of the specification: the prefix [0x]
    followed by exactly forty hexadecimal digits, of either case. *)

Definition hex_digit (c : ascii) : bool :=
  let n := N_of_ascii c in
  ((48 <=? n) && (n <=? 57) || (65 <=? n) && (n <=? 70) || (97 <=? n) && (n <=? 102))%N.

Fixpoint all_hex (s : string) : bool :=
  match s with
  | EmptyString => true
  | String c rest => hex_digit c && all_hex rest
  end.

Definition address_shape (s : string) : Prop :=
  exists digits,
    s = "0x" +:+ digits /\ String.length digits = 40%nat /\ all_hex digits = true.

(** ** The server ([server.js]) *)

Module Server.

Import JsString.

(** *** Values exchanged with the chain client *)

(** A thrown JavaScript error; the handler only looks at [error.code]. *)
Record Error := { code : option string }.

(** A settled promise. *)
Inductive outcome (A : Type) : Type :=
| Fulfilled (a : A)
| Rejected (e : Error).
Arguments Fulfilled {A} a.
Arguments Rejected {A} e.

Record TransactionRequest := { to : string; value : Z; gasLimit : Z }.
Record TransactionResponse := { hash : string }.
Record TransactionReceipt := { blockNumber : Z }.

(** The calls the handler awaits: [provider.getBalance],
    [faucetWallet.sendTransaction] and [transaction.wait]. *)
Record Chain := {
  getBalance : string -> outcome Z;
  sendTransaction : TransactionRequest -> outcome TransactionResponse;
  wait : TransactionResponse -> Z -> outcome TransactionReceipt
}.

(** The functions of the [ethers] library the server calls outside of the
    awaited ones.  [isAddress] may throw: [isValidAddress] guards it. *)
Class Ethers := {
  parseEther : string -> Z;
  formatEther : Z -> string;
  isAddress : string -> outcome bool
}.

(** *** Requests and responses *)

(** [req.body]: the [address] field may be missing. *)
Record Request := { address : option string }.

Inductive Json : Type :=
| ErrorBody (error : string)
| SuccessBody (txHash : string) (amount : string) (blockNumber : Z).

Record Response := { status : Z; body : Json }.

(** [res.status(st).json(b)]; [res.json(b)] answers with status 200. *)
Definition json (st : Z) (b : Json) : Response := {| status := st; body := b |}.

(** *** Handler code as a tree of effects

    Synchronous effects ([Date.now()], the [addressCooldowns] map, the
    console) and the three awaited calls.  An awaited call hands the settled
    promise to its continuation. *)

Inductive prog (R : Type) : Type :=
| Ret (r : R)
| Throw (e : Error)
| DateNow (k : Z -> prog R)
| MapGet (key : string) (k : option Z -> prog R)
| MapSet (key : string) (v : Z) (k : prog R)
| Console (line : string) (k : prog R)
| AwaitGetBalance (account : string) (k : outcome Z -> prog R)
| AwaitSendTransaction (tx : TransactionRequest)
    (k : outcome TransactionResponse -> prog R)
| AwaitWait (tx : TransactionResponse) (confirms : Z)
    (k : outcome TransactionReceipt -> prog R).
Arguments Ret {R} r.
Arguments Throw {R} e.
Arguments DateNow {R} k.
Arguments MapGet {R} key k.
Arguments MapSet {R} key v k.
Arguments Console {R} line k.
Arguments AwaitGetBalance {R} account k.
Arguments AwaitSendTransaction {R} tx k.
Arguments AwaitWait {R} tx confirms k.

Fixpoint bind {A B : Type} (p : prog A) (f : A -> prog B) : prog B :=
  match p with
  | Ret a => f a
  | Throw e => Throw e
  | DateNow k => DateNow (fun t => bind (k t) f)
  | MapGet key k => MapGet key (fun v => bind (k v) f)
  | MapSet key v k => MapSet key v (bind k f)
  | Console line k => Console line (bind k f)
  | AwaitGetBalance account k => AwaitGetBalance account (fun o => bind (k o) f)
  | AwaitSendTransaction tx k => AwaitSendTransaction tx (fun o => bind (k o) f)
  | AwaitWait tx confirms k => AwaitWait tx confirms (fun o => bind (k o) f)
  end.

(** [try { p } catch (error) { h error }] *)
Fixpoint try_catch {A : Type} (p : prog A) (h : Error -> prog A) : prog A :=
  match p with
  | Ret a => Ret a
  | Throw e => h e
  | DateNow k => DateNow (fun t => try_catch (k t) h)
  | MapGet key k => MapGet key (fun v => try_catch (k v) h)
  | MapSet key v k => MapSet key v (try_catch k h)
  | Console line k => Console line (try_catch k h)
  | AwaitGetBalance account k => AwaitGetBalance account (fun o => try_catch (k o) h)
  | AwaitSendTransaction tx k => AwaitSendTransaction tx (fun o => try_catch (k o) h)
  | AwaitWait tx confirms k => AwaitWait tx confirms (fun o => try_catch (k o) h)
  end.

Notation "x <- p ;; q" := (bind p (fun x => q))
  (at level 63, p at next level, right associativity).
Notation "p ;;; q" := (bind p (fun _ => q))
  (at level 63, right associativity).

(** [await promise]: the value, or the rejection rethrown. *)
Definition settle {A : Type} (o : outcome A) : prog A :=
  match o with
  | Fulfilled a => Ret a
  | Rejected e => Throw e
  end.

Definition now : prog Z := DateNow Ret.
Definition cooldowns_get (key : string) : prog (option Z) := MapGet key Ret.
Definition cooldowns_set (key : string) (v : Z) : prog unit := MapSet key v (Ret tt).
Definition console_log (line : string) : prog unit := Console line (Ret tt).
Definition await_getBalance (account : string) : prog Z :=
  AwaitGetBalance account settle.
Definition await_sendTransaction (tx : TransactionRequest) : prog TransactionResponse :=
  AwaitSendTransaction tx settle.
Definition await_wait (tx : TransactionResponse) (confirms : Z) : prog TransactionReceipt :=
  AwaitWait tx confirms settle.

(** *** The handler *)

Local Open Scope Z_scope.

(** [60 * 60 * 1000]: one hour in milliseconds. *)
Definition ADDRESS_COOLDOWN : Z := 60 * 60 * 1000.

Section Handler.

Context `{Ethers}.

(** [faucetWallet.address] *)
Variable faucetWallet_address : string.

Definition FAUCET_AMOUNT : Z := parseEther "0.1".
Definition MIN_BALANCE : Z := parseEther "1.0".

Definition isValidAddress (address : string) : bool :=
  match isAddress address with
  | Fulfilled b => b
  | Rejected _ => false
  end.

(** [lastRequest && Date.now() - lastRequest < ADDRESS_COOLDOWN]: a missing
    entry is [undefined] and the number [0] is falsy too; the clock is read
    only past them. *)
Definition checkAddressCooldown (address : string) : prog bool :=
  lastRequest <- cooldowns_get (toLowerCase address) ;;
  match lastRequest with
  | None => Ret true
  | Some lastRequest =>
      if lastRequest =? 0 then Ret true
      else
        t <- now ;;
        if t - lastRequest <? ADDRESS_COOLDOWN then Ret false else Ret true
  end.

Definition updateAddressCooldown (address : string) : prog unit :=
  let key := toLowerCase address in
  t <- now ;;
  cooldowns_set key t.

(** [error.code === c] *)
Definition code_is (error : Error) (c : string) : bool :=
  match code error with
  | Some s => String.eqb s c
  | None => false
  end.

(** The [catch] block of the handler. *)
Definition on_error (error : Error) : prog Response :=
  console_log "Faucet error:" ;;;
  if code_is error "INSUFFICIENT_FUNDS" then
    Ret (json 503 (ErrorBody "Faucet has insufficient funds"))
  else if code_is error "NETWORK_ERROR" then
    Ret (json 502 (ErrorBody "Network error. Please try again later."))
  else
    Ret (json 500 (ErrorBody "Internal server error")).

(** [app.post('/api/faucet', limiter, async (req, res) => ...)], past the
    per-IP limiter. *)
Definition faucet (req : Request) : prog Response :=
  try_catch
    (match address req with
     | None => Ret (json 400 (ErrorBody "Address is required"))
     | Some address =>
       if falsy address then Ret (json 400 (ErrorBody "Address is required"))
       else if negb (isValidAddress address) then
         Ret (json 400 (ErrorBody "Invalid Ethereum address"))
       else
         eligible <- checkAddressCooldown address ;;
         if negb eligible then
           Ret (json 429 (ErrorBody
             "This address has already requested funds recently. Please wait 1 hour."))
         else
           faucetBalance <- await_getBalance faucetWallet_address ;;
           if faucetBalance <? MIN_BALANCE then
             Ret (json 503 (ErrorBody
               "Faucet is running low on funds. Please contact the administrator."))
           else
             recipientBalance <- await_getBalance address ;;
             let maxRecipientBalance := parseEther "5.0" in
             if recipientBalance >? maxRecipientBalance then
               Ret (json 400 (ErrorBody "Recipient address already has sufficient funds"))
             else
               let tx := {| to := address; value := FAUCET_AMOUNT; gasLimit := 21000 |} in
               console_log ("Sending " +:+ formatEther FAUCET_AMOUNT +:+ " ETH to " +:+ address) ;;;
               transaction <- await_sendTransaction tx ;;
               updateAddressCooldown address ;;;
               receipt <- await_wait transaction 1 ;;
               console_log ("Transaction successful: " +:+ hash transaction) ;;;
               Ret (json 200
                 (SuccessBody (hash transaction) (formatEther FAUCET_AMOUNT)
                    (blockNumber receipt)))
     end)
    on_error.

End Handler.

(** The rejections of the handler, under the names of the specification. *)
Definition AddressRequired : Response := json 400 (ErrorBody "Address is required").
Definition InvalidAddress : Response := json 400 (ErrorBody "Invalid Ethereum address").
Definition CooldownActive : Response :=
  json 429 (ErrorBody
    "This address has already requested funds recently. Please wait 1 hour.").
Definition ReserveLow : Response :=
  json 503 (ErrorBody
    "Faucet is running low on funds. Please contact the administrator.").
Definition RecipientAlreadyFunded : Response :=
  json 400 (ErrorBody "Recipient address already has sufficient funds").

(** The answers of the [catch] block. *)
Definition InsufficientFunds : Response :=
  json 503 (ErrorBody "Faucet has insufficient funds").
Definition NetworkError : Response :=
  json 502 (ErrorBody "Network error. Please try again later.").
Definition InternalError : Response := json 500 (ErrorBody "Internal server error").

(** *** Running handler code

    The state of the process is the [addressCooldowns] map; [trace] lists, in
    order, the calls issued to the chain client, the writes to the map and
    the console lines. *)

Inductive Event : Type :=
| EGetBalance (account : string)
| ESendTransaction (tx : TransactionRequest)
| EWait (tx : TransactionResponse) (confirms : Z)
| ESet (key : string) (v : Z)
| ELog (line : string).

Record World := { addressCooldowns : gmap string Z; trace : list Event }.

Definition record (e : Event) (w : World) : World :=
  {| addressCooldowns := addressCooldowns w; trace := trace w ++ [e] |}.

Definition store (key : string) (v : Z) (w : World) : World :=
  {| addressCooldowns := <[key := v]> (addressCooldowns w);
     trace := trace w ++ [ESet key v] |}.

(** One request handled alone.  [clock n] is the reading of [Date.now()]
    once [n] awaited calls have settled; [chain] answers the calls. *)
Fixpoint exec {R : Type} (chain : Chain) (clock : nat -> Z) (p : prog R)
    (n : nat) (w : World) {struct p} : outcome R * World :=
  match p with
  | Ret r => (Fulfilled r, w)
  | Throw e => (Rejected e, w)
  | DateNow k => exec chain clock (k (clock n)) n w
  | MapGet key k => exec chain clock (k (addressCooldowns w !! key)) n w
  | MapSet key v k => exec chain clock k n (store key v w)
  | Console line k => exec chain clock k n (record (ELog line) w)
  | AwaitGetBalance account k =>
      exec chain clock (k (getBalance chain account)) (S n)
        (record (EGetBalance account) w)
  | AwaitSendTransaction tx k =>
      exec chain clock (k (sendTransaction chain tx)) (S n)
        (record (ESendTransaction tx) w)
  | AwaitWait tx confirms k =>
      exec chain clock (k (wait chain tx confirms)) (S n)
        (record (EWait tx confirms) w)
  end.

(** Every entry of the map is a reading of [Date.now()], a positive number
    of milliseconds. *)
Definition timestamps_positive (w : World) : Prop :=
  map_Forall (fun (_ : string) (t : Z) => (0 < t)%Z) (addressCooldowns w).

(** A transfer was attempted: the trace holds a [sendTransaction] call. *)
Definition is_send (e : Event) : bool :=
  match e with
  | ESendTransaction _ => true
  | _ => false
  end.

Definition transfer_attempted (w : World) : bool := existsb is_send (trace w).

(** The number of [sendTransaction] calls in the trace. *)
Definition transfers (w : World) : nat := length (List.filter is_send (trace w)).

(** *** Handlers in flight together

    Node runs the synchronous code of a handler without interruption and
    switches handlers only at an [await].  [advance] runs a handler at
    wall-clock time [t] up to its next awaited call, [issue] records that
    call and [resume] hands the settled promise to the suspended handler. *)

Fixpoint advance {R : Type} (t : Z) (p : prog R) (w : World) {struct p} : prog R * World :=
  match p with
  | DateNow k => advance t (k t) w
  | MapGet key k => advance t (k (addressCooldowns w !! key)) w
  | MapSet key v k => advance t k (store key v w)
  | Console line k => advance t k (record (ELog line) w)
  | _ => (p, w)
  end.

Definition issue {R : Type} (p : prog R) (w : World) : World :=
  match p with
  | AwaitGetBalance account _ => record (EGetBalance account) w
  | AwaitSendTransaction tx _ => record (ESendTransaction tx) w
  | AwaitWait tx confirms _ => record (EWait tx confirms) w
  | _ => w
  end.

Definition resume {R : Type} (chain : Chain) (p : prog R) : prog R :=
  match p with
  | AwaitGetBalance account k => k (getBalance chain account)
  | AwaitSendTransaction tx k => k (sendTransaction chain tx)
  | AwaitWait tx confirms k => k (wait chain tx confirms)
  | _ => p
  end.

Definition run_to_await {R : Type} (t : Z) (p : prog R) (w : World) : prog R * World :=
  let (p', w') := advance t p w in (p', issue p' w').

(** The process: the shared state and the handlers started so far, each
    either suspended at an awaited call or finished. *)
Record Process := { world : World; tasks : list (prog Response) }.

(** What the event loop does next: a request arrives at time [t] and its
    handler starts, or at time [t] the call awaited by handler [i] settles
    as [chain] says and the handler goes on. *)
Inductive Action : Type :=
| Arrive (t : Z) (handler : prog Response)
| Settle (t : Z) (i : nat) (chain : Chain).

Definition step (s : Process) (a : Action) : Process :=
  match a with
  | Arrive t handler =>
      let (p, w) := run_to_await t handler (world s) in
      {| world := w; tasks := tasks s ++ [p] |}
  | Settle t i chain =>
      match tasks s !! i with
      | Some suspended =>
          let (p, w) := run_to_await t (resume chain suspended) (world s) in
          {| world := w; tasks := <[i := p]> (tasks s) |}
      | None => s
      end
  end.

Definition run (s : Process) (schedule : list Action) : Process :=
  fold_left step schedule s.

End Server.

(** ** Keccak-256, which [ethers] uses for the checksum of an address

    The sponge with a rate of 136 bytes over the permutation of 1600 bits
    in 24 rounds, and the padding of the original Keccak.  Bytes and 64-bit
    lanes are numbers. *)

Module Keccak.

Local Open Scope Z_scope.

Definition lane_mask : Z := 2 ^ 64 - 1.

Definition rotl (x n : Z) : Z :=
  Z.land (Z.lor (Z.shiftl x n) (Z.shiftr x (64 - n))) lane_mask.

Definition round_constants : list Z :=
  [0x0000000000000001; 0x0000000000008082; 0x800000000000808A; 0x8000000080008000;
   0x000000000000808B; 0x0000000080000001; 0x8000000080008081; 0x8000000000008009;
   0x000000000000008A; 0x0000000000000088; 0x0000000080008009; 0x000000008000000A;
   0x000000008000808B; 0x800000000000008B; 0x8000000000008089; 0x8000000000008003;
   0x8000000000008002; 0x8000000000000080; 0x000000000000800A; 0x800000008000000A;
   0x8000000080008081; 0x8000000000008080; 0x0000000080000001; 0x8000000080008008].

(** The rotation of the lane [(x, y)], at index [x + 5 y]. *)
Definition rotation_offsets : list Z :=
  [0; 1; 62; 28; 27;  36; 44; 6; 55; 20;  3; 10; 43; 25; 39;
   41; 45; 15; 21; 8;  18; 2; 61; 56; 14].

Definition lane (s : list Z) (x y : nat) : Z :=
  nth (x mod 5 + 5 * (y mod 5))%nat s 0.

Definition indices : list nat := seq 0 25.

Definition theta (s : list Z) : list Z :=
  let column x :=
    Z.lxor (lane s x 0)
      (Z.lxor (lane s x 1) (Z.lxor (lane s x 2) (Z.lxor (lane s x 3) (lane s x 4)))) in
  let d x := Z.lxor (column (x + 4)%nat) (rotl (column (x + 1)%nat) 1) in
  map (fun i => Z.lxor (nth i s 0) (d (i mod 5)%nat)) indices.

(** The lane that lands at [(X, Y)] comes from [(X + 3 Y, X)]. *)
Definition rho_pi (s : list Z) : list Z :=
  map (fun i =>
         let X := (i mod 5)%nat in
         let Y := (i / 5)%nat in
         let x := ((X + 3 * Y) mod 5)%nat in
         rotl (lane s x X) (nth (x + 5 * X)%nat rotation_offsets 0))
      indices.

Definition chi (b : list Z) : list Z :=
  map (fun i =>
         let x := (i mod 5)%nat in
         let y := (i / 5)%nat in
         Z.lxor (lane b x y)
           (Z.land (Z.lxor (lane b (x + 1)%nat y) lane_mask) (lane b (x + 2)%nat y)))
      indices.

Definition iota (rc : Z) (s : list Z) : list Z :=
  match s with
  | first :: rest => Z.lxor first rc :: rest
  | [] => []
  end.

Definition permute (s : list Z) : list Z :=
  fold_left (fun s rc => iota rc (chi (rho_pi (theta s)))) round_constants s.

Definition rate : nat := 136.

(** A byte [0x01], zeros, and [0x80] on the last byte of a block. *)
Definition pad (msg : list Z) : list Z :=
  match (rate - 1 - length msg mod rate)%nat with
  | O => msg ++ [0x81]
  | S zeros => msg ++ [0x01] ++ repeat 0 zeros ++ [0x80]
  end.

Definition little_endian (bytes : list Z) : Z :=
  fold_right (fun b acc => b + 256 * acc) 0 bytes.

Fixpoint lanes_of (n : nat) (bytes : list Z) : list Z :=
  match n with
  | O => []
  | S n' => little_endian (firstn 8 bytes) :: lanes_of n' (skipn 8 bytes)
  end.

Definition absorb_block (s block : list Z) : list Z :=
  permute (map (fun i => Z.lxor (nth i s 0) (nth i (lanes_of 17 block) 0)) indices).

Fixpoint absorb (blocks : nat) (s msg : list Z) : list Z :=
  match blocks with
  | O => s
  | S blocks' => absorb blocks' (absorb_block s (firstn rate msg)) (skipn rate msg)
  end.

Definition bytes_of_lane (l : Z) : list Z :=
  map (fun i => (l / 256 ^ Z.of_nat i) mod 256) (seq 0 8).

(** The thirty-two bytes of the digest. *)
Definition keccak256 (msg : list Z) : list Z :=
  let padded := pad msg in
  let s := absorb (length padded / rate) (repeat 0 25) padded in
  flat_map bytes_of_lane (firstn 4 s).

End Keccak.

(** ** [ethers.isAddress]

    Modelled from the spec: [ethers.isAddress] is missing.  Section 4.1
    leaves the rules of an address, checksum included, to the library; the
    model follows [getAddress] of version 6 of the library, which the
    server loads.  An address is forty hexadecimal digits with or without
    [0x], whose mixed-case spellings must carry the Keccak checksum of
    EIP-55, or an ICAP address [XE..] with its two check digits. *)

Module EthersAddress.

Import JsString JsStringOps Regex.

Local Open Scope Z_scope.

Definition hex40 : re := Repeat (Class [("0", "9"); ("a", "f"); ("A", "F")]%char) 40.

(** [/^(0x)?[0-9a-fA-F]{40}$/]: with the prefix, or without it. *)
Definition is_hex_address (s : string) : bool :=
  test (Seq (Lit "0") (Seq (Lit "x") hex40)) s || test hex40 s.

Definition icap (payload : nat) : re :=
  Seq (Lit "X") (Seq (Lit "E")
    (Seq (Repeat (Class [("0", "9")]%char) 2)
       (Repeat (Class [("0", "9"); ("A", "Z"); ("a", "z")]%char) payload))).

(** [/^XE[0-9]{2}[0-9A-Za-z]{30,31}$/] *)
Definition is_icap (s : string) : bool := test (icap 30) s || test (icap 31) s.

Fixpoint drop (n : nat) (s : string) : string :=
  match n, s with
  | S n', String _ rest => drop n' rest
  | _, _ => s
  end.

Fixpoint take (n : nat) (s : string) : string :=
  match n, s with
  | S n', String c rest => String c (take n' rest)
  | _, _ => EmptyString
  end.

Definition code_units (s : string) : list Z :=
  map (fun c => Z.of_N (N_of_ascii c)) (list_ascii_of_string s).

Definition nibbles (bytes : list Z) : list Z :=
  flat_map (fun b => [b / 16; b mod 16]) bytes.

(** The character [i] goes to upper case when the nibble [i] of the hash is
    8 or more. *)
Fixpoint raise (chars : string) (hashed : list Z) : string :=
  match chars, hashed with
  | String c rest, n :: ns => String (if 8 <=? n then upper_char c else c) (raise rest ns)
  | _, _ => chars
  end.

(** [address] carries the prefix. *)
Definition getChecksumAddress (address : string) : string :=
  let chars := drop 2 (toLowerCase address) in
  let hashed := Keccak.keccak256 (code_units (take 40 chars)) in
  "0x" +:+ raise chars (nibbles (firstn 20 hashed)).

(** [/([A-F].*[a-f])|([a-f].*[A-F])/] on the digits of an address: a letter
    of each case. *)
Definition between (lo hi : ascii) (c : ascii) : bool := in_range c (lo, hi).

Definition mixed_case (address : string) : bool :=
  existsb (between "A" "F") (list_ascii_of_string address) &&
  existsb (between "a" "f") (list_ascii_of_string address).

(** [ibanLookup]: a digit stands for itself, the letter of rank [i] for the
    two digits of [10 + i]. *)
Definition iban_digits (c : ascii) : list Z :=
  let n := Z.of_N (N_of_ascii c) in
  if (48 <=? n) && (n <=? 57) then [n - 48]
  else [(n - 55) / 10; (n - 55) mod 10].

Definition decimal_value (digits : list Z) : Z :=
  fold_left (fun acc d => 10 * acc + d) digits 0.

Definition ibanChecksum (address : string) : string :=
  let address := toUpperCase address in
  let address := drop 4 address +:+ take 2 address +:+ "00" in
  let expanded := flat_map iban_digits (list_ascii_of_string address) in
  let checksum := 98 - decimal_value expanded mod 97 in
  String (ascii_of_N (Z.to_N (48 + checksum / 10)))
    (String (ascii_of_N (Z.to_N (48 + checksum mod 10))) EmptyString).

(** [isAddress value]: [getAddress value] does not throw. *)
Definition isAddress (value : string) : bool :=
  if is_hex_address value then
    let address :=
      match strip_prefix "0x" value with
      | Some _ => value
      | None => "0x" +:+ value
      end in
    negb (mixed_case address) || String.eqb (getChecksumAddress address) address
  else if is_icap value then
    String.eqb (take 2 (drop 2 value)) (ibanChecksum value)
  else false.

End EthersAddress.

(** ** A model of the [ethers] functions

    The library is not part of the repository.  The three functions are
    modelled from its documented behaviour on the values the server uses:
    amounts are decimal strings with eighteen fractional digits, and
    [formatEther] drops trailing zeros but keeps one fractional digit. *)

Module EthersModel.

Import Server.

Definition digit_value (c : ascii) : Z := Z.of_N (N_of_ascii c) - 48.

Fixpoint digits_value (acc : Z) (s : string) : Z :=
  match s with
  | EmptyString => acc
  | String c rest => digits_value (acc * 10 + digit_value c) rest
  end.

(** The text before and after the first decimal point. *)
Fixpoint split_point (s : string) : string * string :=
  match s with
  | EmptyString => (EmptyString, EmptyString)
  | String c rest =>
      if Ascii.eqb c "." then (EmptyString, rest)
      else let (whole, frac) := split_point rest in (String c whole, frac)
  end.

(** [frac] cut or filled with zeros to [n] digits. *)
Fixpoint pad_right (n : nat) (frac : string) : string :=
  match n with
  | O => EmptyString
  | S n' =>
      match frac with
      | EmptyString => String "0" (pad_right n' EmptyString)
      | String c rest => String c (pad_right n' rest)
      end
  end.

(** Modelled from the spec: [ethers.parseEther] is missing; the amounts of
    the specification (0.1, 1.0 and 5 ETH) are decimal numbers of ether,
    held in wei, eighteen decimals below. *)
Definition parseUnits (s : string) (decimals : nat) : Z :=
  let (whole, frac) := split_point s in
  (digits_value 0 whole * 10 ^ Z.of_nat decimals
   + digits_value 0 (pad_right decimals frac))%Z.

Definition decimal_of_Z (z : Z) : string := NilZero.string_of_uint (N.to_uint (Z.to_N z)).

Fixpoint zeros (n : nat) : string :=
  match n with
  | O => EmptyString
  | S n' => String "0" (zeros n')
  end.

(** Trailing zeros removed, one digit kept. *)
Fixpoint strip_zeros (s : string) : string :=
  match s with
  | EmptyString => EmptyString
  | String c rest =>
      match strip_zeros rest with
      | EmptyString => if Ascii.eqb c "0" then EmptyString else String c EmptyString
      | rest' => String c rest'
      end
  end.

(** Modelled from the spec: [ethers.formatEther] is missing; the amount of
    a response is the decimal text of the ether sent, ["0.1"]. *)
Definition formatUnits (v : Z) (decimals : nat) : string :=
  let unit := (10 ^ Z.of_nat decimals)%Z in
  let frac := decimal_of_Z (v mod unit) in
  let frac := zeros (decimals - String.length frac) +:+ frac in
  let frac := match strip_zeros frac with EmptyString => "0" | f => f end in
  decimal_of_Z (v / unit) +:+ "." +:+ frac.

(** Modelled from the spec: [ethers.isAddress] is missing; section 4.1
    leaves the rules of an address to the library, and this is the verdict
    of its [getAddress] as [EthersAddress] has it.  It does not throw on a
    string. *)
Definition model_isAddress (s : string) : outcome bool :=
  Fulfilled (EthersAddress.isAddress s).

#[export] Instance ethers : Ethers := {|
  parseEther s := parseUnits s 18;
  formatEther v := formatUnits v 18;
  isAddress := model_isAddress
|}.

End EthersModel.

(** ** Concrete chains and requests *)

Module Scenario.

Import Server EthersModel.

Definition faucet_address : string := "0x00000000000000000000000000000000000000fa".

(** A well-formed address, and the address of the scenario of section 8,
    which has thirty-eight digits. *)
Definition recipient : string := "0x742d35cc6635bb00000000000000000000000000".
Definition scenario_address : string := "0x742d35Cc6635Bb000000000000000000000000".

Definition sent : TransactionResponse := {| hash := "0xfeed" |}.
Definition mined : TransactionReceipt := {| blockNumber := 4242 |}.

(** A chain on which the faucet holds [reserve] wei and every other account
    [funds] wei, every broadcast succeeds and the confirmation settles as
    [confirmation]. *)
Definition chain (reserve funds : Z) (confirmation : outcome TransactionReceipt) : Chain :=
  {| getBalance account :=
       if String.eqb account faucet_address then Fulfilled reserve else Fulfilled funds;
     sendTransaction _ := Fulfilled sent;
     wait _ _ := confirmation |}.

Definition clock (n : nat) : Z := 1700000000000 + 1000 * Z.of_nat n.

Definition fresh : World := {| addressCooldowns := ∅; trace := [] |}.

Definition served (t : Z) : World :=
  {| addressCooldowns := {[ recipient := t ]}; trace := [] |}.

Definition request (a : string) : Request := {| address := Some a |}.

Definition ETH : Z := 1000000000000000000.

(** A chain on which everything succeeds: a reserve of 10 ETH, recipients
    without funds, a confirmation in block [mined]. *)
Definition healthy : Chain := chain (10 * ETH) 0 (Fulfilled mined).

(** The recipient holds 6 ETH, or exactly the ceiling of 5 ETH. *)
Definition funded : Chain := chain (10 * ETH) (6 * ETH) (Fulfilled mined).
Definition at_ceiling : Chain := chain (10 * ETH) (parseEther "5.0") (Fulfilled mined).

(** The reserve is exactly the threshold of 1 ETH, or half of it. *)
Definition at_threshold : Chain := chain (parseEther "1.0") 0 (Fulfilled mined).
Definition low : Chain := chain (ETH / 2) 0 (Fulfilled mined).

(** The confirmation wait fails with a network error. *)
Definition network_down : Error := {| code := Some "NETWORK_ERROR" |}.
Definition unconfirmed : Chain := chain (10 * ETH) 0 (Rejected network_down).

(** Two requests for [recipient] arrive at the same instant [t]; the awaited
    calls of the two handlers then settle in turn, a second apart. *)
Definition both_at_once (handler : prog Response) (t : Z) : list Action :=
  [Arrive t handler; Arrive t handler;
   Settle (t + 1000) 0 healthy; Settle (t + 1000) 1 healthy;
   Settle (t + 2000) 0 healthy; Settle (t + 2000) 1 healthy;
   Settle (t + 3000) 0 healthy; Settle (t + 3000) 1 healthy;
   Settle (t + 4000) 0 healthy; Settle (t + 4000) 1 healthy].

Definition arrival : Z := 1700000000000.

(** The process after the two simultaneous requests have been handled. *)
Definition raced : Process :=
  run {| world := fresh; tasks := [] |}
    (both_at_once (faucet faucet_address (request recipient)) arrival).

End Scenario.

(** ** The start of the server: the signing key ([server.js], lines 183-199) *)

Module Startup.

Import JsString JsStringOps Regex.

(** What [console.error] reports before [process.exit(1)]: the variable is
    not set, or the key is malformed, in which case the value of the variable
    is printed after ["Current value:"]. *)
Inductive Complaint : Type :=
| KeyNotSet
| KeyMalformed (current : string).

(** The process exits, or goes on to [new ethers.Wallet(privateKey, provider)]. *)
Inductive Boot : Type :=
| Exit (status : Z) (complaint : Complaint)
| Started (privateKey : string).

(** [/^[0-9a-fA-F]{64}$/] *)
Definition key_re : re :=
  Repeat (Class [("0", "9"); ("a", "f"); ("A", "F")]%char) 64.

(** [PRIVATE_KEY] is [process.env.PRIVATE_KEY], [None] when it is not set. *)
Definition boot (PRIVATE_KEY : option string) : Boot :=
  match PRIVATE_KEY with
  | None => Exit 1 KeyNotSet
  | Some raw =>
      if falsy raw then Exit 1 KeyNotSet
      else
        let privateKey := replace "0x" "" raw in
        if negb (test key_re privateKey) then Exit 1 (KeyMalformed raw)
        else Started privateKey
  end.

(** Sixty-four hexadecimal digits. *)
Definition key_shape (k : string) : Prop :=
  String.length k = 64%nat /\ all_hex k = true.

End Startup.

(** ** What [fetch] gives back to the form *)

Module Wire.

(** The fields the form reads in a JSON body, each a string or missing. *)
Record Payload := {
  error : option string;
  txHash : option string;
  amount : option string
}.

(** [fetch] rejects, or the server answers and [response.json()] rejects,
    or the server answers with a JSON object. *)
Inductive Fetched : Type :=
| Unreachable (message : string)
| Unreadable (ok : bool) (message : string)
| Replied (ok : bool) (body : Payload).

(** An answer of the server as [fetch] sees it: [response.ok] holds for the
    statuses 200 to 299. *)
Definition payload (b : Server.Json) : Payload :=
  match b with
  | Server.ErrorBody e => {| error := Some e; txHash := None; amount := None |}
  | Server.SuccessBody h a _ => {| error := None; txHash := Some h; amount := Some a |}
  end.

Definition of_response (r : Server.Response) : Fetched :=
  Replied ((200 <=? Server.status r)%Z && (Server.status r <? 300)%Z)
    (payload (Server.body r)).

End Wire.

(** ** The form ([App.js], lines 5-62, in its two wordings) *)

Module Form.

Import JsString JsStringOps.

(** The five [useState] cells.  [txHash] starts as the empty string and
    takes what [result.txHash] holds, possibly [undefined]. *)
Record State := {
  address : string;
  isLoading : bool;
  txHash : option string;
  error : string;
  success : string
}.

Definition initial : State :=
  {| address := ""; isLoading := false; txHash := Some ""; error := ""; success := "" |}.

Definition setAddress (v : string) (st : State) : State :=
  {| address := v; isLoading := isLoading st; txHash := txHash st;
     error := error st; success := success st |}.
Definition setIsLoading (v : bool) (st : State) : State :=
  {| address := address st; isLoading := v; txHash := txHash st;
     error := error st; success := success st |}.
Definition setTxHash (v : option string) (st : State) : State :=
  {| address := address st; isLoading := isLoading st; txHash := v;
     error := error st; success := success st |}.
Definition setError (v : string) (st : State) : State :=
  {| address := address st; isLoading := isLoading st; txHash := txHash st;
     error := v; success := success st |}.
Definition setSuccess (v : string) (st : State) : State :=
  {| address := address st; isLoading := isLoading st; txHash := txHash st;
     error := error st; success := v |}.

(** The two copies of the component differ in their texts only. *)
Record Wording := {
  required : string;
  invalid : string;
  sent : string -> string -> string;
  failed : string -> string
}.

(** [src/frontend/src/App.js] *)
Definition terminal : Wording :=
  {| required := "ADDRESS REQUIRED";
     invalid := "INVALID ADDRESS FORMAT";
     sent amount _ := "TRANSACTION COMPLETE: " +:+ amount +:+ " ETH SENT";
     failed message := toUpperCase message |}.

(** The other copy. *)
Definition friendly : Wording :=
  {| required := "Please enter an Ethereum address";
     invalid := "Please enter a valid Ethereum address";
     sent amount address := "Successfully sent " +:+ amount +:+ " ETH to " +:+ address;
     failed message := message |}.

(** The end of [requestFunds]: the parsed body, or a thrown [Error] with its
    message. *)
Inductive Attempt : Type :=
| Threw (message : string)
| Returned (result : Wire.Payload).

(** [requestFunds]: one [POST /api/faucet] with the body [{ address }].
    [network] is the server and the transport, as the browser sees them. *)
Definition requestFunds (network : Server.Request -> Wire.Fetched)
    (recipientAddress : string) : Attempt :=
  match network {| Server.address := Some recipientAddress |} with
  | Wire.Unreachable message => Threw message
  | Wire.Unreadable _ message => Threw message
  | Wire.Replied ok body =>
      if negb ok then
        Threw match Wire.error body with
              | Some e => if falsy e then "Failed to request funds" else e
              | None => "Failed to request funds"
              end
      else Returned body
  end.

(** [handleSubmit]: the state once the handler has run to its end, and the
    requests it posted. *)
Definition handleSubmit (text : Wording) (network : Server.Request -> Wire.Fetched)
    (st : State) : State * list Server.Request :=
  let address := address st in
  let st := setTxHash (Some "") (setSuccess "" (setError "" st)) in
  if falsy address then (setError (required text) st, [])
  else if negb (Frontend.isValidAddress address) then (setError (invalid text) st, [])
  else
    let st := setIsLoading true st in
    let st :=
      match requestFunds network address with
      | Returned result =>
          setAddress ""
            (setSuccess (sent text (interpolate (Wire.amount result)) address)
               (setTxHash (Wire.txHash result) st))
      | Threw message => setError (failed text message) st
      end in
    (setIsLoading false st, [{| Server.address := Some address |}]).

End Form.

(** ** Shapes the cooldown map keeps, and more chains *)

Module Invariant.

Import Server.

(** Every key of the map is a lower-cased string. *)
Definition keys_normalised (w : World) : Prop :=
  map_Forall (fun (key : string) (_ : Z) => JsString.toLowerCase key = key)
    (addressCooldowns w).

(** The answers of the handler that are not a success. *)
Definition refusals : list Response :=
  [AddressRequired; InvalidAddress; CooldownActive; ReserveLow;
   RecipientAlreadyFunded; InsufficientFunds; NetworkError; InternalError].

(** The answer of the [catch] block to an error. *)
Definition caught (e : Error) : Response :=
  if code_is e "INSUFFICIENT_FUNDS" then InsufficientFunds
  else if code_is e "NETWORK_ERROR" then NetworkError
  else InternalError.

(** However [p] goes on, whatever the clock, the map and the settled calls
    hand to it, it does not end by throwing, and an answer it ends with is
    one that [ok] allows. *)
Fixpoint ends_within {R : Type} (ok : R -> Prop) (p : prog R) : Prop :=
  match p with
  | Ret r => ok r
  | Throw _ => False
  | DateNow k => forall t, ends_within ok (k t)
  | MapGet _ k => forall v, ends_within ok (k v)
  | MapSet _ _ k => ends_within ok k
  | Console _ k => ends_within ok k
  | AwaitGetBalance _ k => forall o, ends_within ok (k o)
  | AwaitSendTransaction _ k => forall o, ends_within ok (k o)
  | AwaitWait _ _ k => forall o, ends_within ok (k o)
  end.

(** The answers of the handler: a refusal, or a success with the fixed
    amount. *)
Definition allowed `{Ethers} (r : Response) : Prop :=
  In r refusals \/
  exists h b, r = json 200 (SuccessBody h (formatEther FAUCET_AMOUNT) b).

(** A handler in flight, or one that has ended with an allowed answer. *)
Definition in_order `{Ethers} (task : prog Response) : Prop :=
  match task with
  | Throw _ => False
  | Ret r => allowed r
  | _ => True
  end.

(** The requests that arrive are for the faucet. *)
Definition faucet_arrival `{Ethers} (faucetWallet_address : string) (a : Action) : Prop :=
  match a with
  | Arrive _ handler => exists req, handler = faucet faucetWallet_address req
  | Settle _ _ _ => True
  end.

End Invariant.

Module Outage.

Import Server Scenario.

Definition out_of_gas : Error := {| code := Some "INSUFFICIENT_FUNDS" |}.

(** The broadcast is refused for lack of funds. *)
Definition refusing : Chain :=
  {| getBalance account :=
       if String.eqb account faucet_address then Fulfilled (10 * ETH)%Z
       else Fulfilled 0%Z;
     sendTransaction _ := Rejected out_of_gas;
     wait _ _ := Fulfilled mined |}.

(** The node cannot be reached. *)
Definition offline : Chain :=
  {| getBalance _ := Rejected network_down;
     sendTransaction _ := Rejected network_down;
     wait _ _ := Rejected network_down |}.

(** The same address in capitals after the prefix. *)
Definition recipient_capitals : string := "0x742D35CC6635BB00000000000000000000000000".

(** A signing key of the right shape. *)
Definition sample_key : string :=
  "4c0883a69102937d6231471b5dbb6204fe5129617082792ae468d01a3f362318".

Definition an_hour_later (n : nat) : Z := (clock (n + 3) + 3600 * 1000)%Z.

(** Another address has been served, under a key in capitals. *)
Definition other_served : World :=
  {| addressCooldowns := {[ "0xABCDEF0000000000000000000000000000000000" := 5%Z ]};
     trace := [] |}.

(** The form with [recipient] typed in, and a transport that hands over the
    answer of the server to a healthy chain. *)
Definition typed : Form.State := Form.setAddress recipient Form.initial.

Definition served_answer : Response :=
  json 200 (SuccessBody "0xfeed" "0.1" 4242).

Definition transport (_ : Request) : Wire.Fetched := Wire.of_response served_answer.

End Outage.

(** * Properties *)

(** ** The address validator *)

Section RegexFacts.

Import Regex.

Lemma append_cons (c : ascii) (s t : string) : String c s +:+ t = String c (s +:+ t).
Proof. reflexivity. Qed.

Lemma append_empty_l (s : string) : EmptyString +:+ s = s.
Proof. reflexivity. Qed.

Lemma append_empty_r (s : string) : s +:+ EmptyString = s.
Proof.
  induction s as [|c s IH]; [reflexivity | now rewrite append_cons, IH].
Qed.

Lemma append_assoc (s1 s2 s3 : string) : (s1 +:+ s2) +:+ s3 = s1 +:+ (s2 +:+ s3).
Proof.
  induction s1 as [|c s1 IH]; [reflexivity | now rewrite !append_cons, IH].
Qed.

Lemma eat_repeat_S (r : re) (n : nat) (s : string) :
  eat (Repeat r (S n)) s =
  match eat r s with
  | Some rest => eat (Repeat r n) rest
  | None => None
  end.
Proof. reflexivity. Qed.

(** What [eat] consumed is a word of the pattern. *)
Lemma eat_sound (r : re) :
  forall s rest, eat r s = Some rest -> exists pre, s = pre +:+ rest /\ matches r pre.
Proof.
  induction r as [c | ranges | r1 IH1 r2 IH2 | r1 IH1 n]; intros s rest.
  - destruct s as [|d s]; simpl; [discriminate|].
    destruct (Ascii.eqb_spec c d) as [->|]; [|discriminate].
    intros [= ->]. exists (String d EmptyString). split; [reflexivity | constructor].
  - destruct s as [|d s]; simpl; [discriminate|].
    destruct (in_class ranges d) eqn:Hd; [|discriminate].
    intros [= ->]. exists (String d EmptyString). split; [reflexivity | now constructor].
  - simpl. destruct (eat r1 s) as [mid|] eqn:E1; [|discriminate].
    intros E2. destruct (IH1 _ _ E1) as (p1 & -> & M1).
    destruct (IH2 _ _ E2) as (p2 & -> & M2).
    exists (p1 +:+ p2). split; [now rewrite append_assoc | now constructor].
  - revert s rest. induction n as [|n IHn]; intros s rest.
    + simpl. intros [= ->]. exists EmptyString. split; [reflexivity | constructor].
    + rewrite eat_repeat_S. destruct (eat r1 s) as [mid|] eqn:E1; [|discriminate].
      intros E2. destruct (IH1 _ _ E1) as (p1 & -> & M1).
      destruct (IHn _ _ E2) as (p2 & -> & M2).
      exists (p1 +:+ p2). split; [now rewrite append_assoc | now constructor].
Qed.

(** A word of the pattern in front of the input is consumed. *)
Lemma eat_complete (r : re) (pre : string) :
  matches r pre -> forall rest, eat r (pre +:+ rest) = Some rest.
Proof.
  induction 1 as [c | ranges c Hc | r1 r2 s1 s2 _ IH1 _ IH2 | r
                 | r n s1 s2 _ IH1 _ IH2]; intros rest.
  - rewrite append_cons, append_empty_l. simpl. now rewrite Ascii.eqb_refl.
  - rewrite append_cons, append_empty_l. simpl. now rewrite Hc.
  - rewrite append_assoc. simpl. now rewrite IH1, IH2.
  - reflexivity.
  - rewrite append_assoc, eat_repeat_S. now rewrite IH1, IH2.
Qed.

Lemma test_matches (r : re) (s : string) : test r s = true <-> matches r s.
Proof.
  unfold test. split.
  - destruct (eat r s) as [[|c rest]|] eqn:E; try discriminate.
    intros _. destruct (eat_sound _ _ _ E) as (pre & -> & M).
    now rewrite append_empty_r.
  - intros M. rewrite <- (append_empty_r s). now rewrite (eat_complete _ _ M).
Qed.

(** The words of [c{n}] for a class [c]: [n] characters of the class. *)
Lemma matches_repeat_class (ranges : list (ascii * ascii)) (n : nat) (s : string) :
  matches (Repeat (Class ranges) n) s <->
  String.length s = n /\ forallb (in_class ranges) (list_ascii_of_string s) = true.
Proof.
  split.
  - remember (Repeat (Class ranges) n) as r eqn:Er. intros M. revert n Er.
    induction M as [| | | r | r n s1 s2 M1 _ M2 IH2]; intros m Er; try discriminate.
    + injection Er as -> <-. now split.
    + injection Er as -> <-. inversion M1 as [|? c Hc| | |]; subst.
      rewrite append_cons, append_empty_l. simpl.
      destruct (IH2 n eq_refl) as [-> ->]. now rewrite Hc.
  - revert n. induction s as [|c s IH]; intros n [Hlen Hall].
    + simpl in Hlen. subst n. constructor.
    + simpl in Hlen, Hall. subst n. apply andb_prop in Hall as [Hc Hs].
      rewrite <- (append_empty_l s), <- append_cons.
      constructor; [now constructor | now apply IH].
Qed.

Lemma hex_class (c : ascii) :
  in_class [("a", "f"); ("A", "F"); ("0", "9")]%char c = hex_digit c.
Proof.
  destruct c as [[] [] [] [] [] [] [] []]; reflexivity.
Qed.

Lemma all_hex_forallb (s : string) :
  forallb (in_class [("a", "f"); ("A", "F"); ("0", "9")]%char) (list_ascii_of_string s)
  = all_hex s.
Proof.
  induction s as [|c s IH]; cbn [forallb list_ascii_of_string all_hex];
    [reflexivity | now rewrite hex_class, IH].
Qed.

Lemma matches_address_re (s : string) :
  matches Frontend.address_re s <-> address_shape s.
Proof.
  unfold Frontend.address_re, address_shape. split.
  - intros M. inversion M as [| |? ? s1 s2 M1 M2| |]; subst.
    inversion M1; subst. inversion M2 as [| |? ? s3 s4 M3 M4| |]; subst.
    inversion M3; subst. apply matches_repeat_class in M4 as [Hlen Hall].
    exists s4. rewrite all_hex_forallb in Hall. now repeat split.
  - intros (digits & -> & Hlen & Hall).
    change ("0x" +:+ digits) with ("0" +:+ ("x" +:+ digits)).
    constructor; [constructor|]. constructor; [constructor|].
    apply matches_repeat_class. now rewrite all_hex_forallb.
Qed.

Lemma valid_iff_shape (s : string) :
  Frontend.isValidAddress s = true <-> address_shape s.
Proof.
  unfold Frontend.isValidAddress. rewrite test_matches. apply matches_address_re.
Qed.

(** The validator of the form, the pattern [/^0x[a-fA-F0-9]{40}$/],
    accepts exactly the address shape: it returns [true] on every string
    made of the prefix [0x] and forty hexadecimal digits of either case, and
    [false] on every other string. *)
Theorem isValidAddress_exactly_address_shape (s : string) :
  (Frontend.isValidAddress s = true <-> address_shape s) /\
  (Frontend.isValidAddress s = false <-> ~ address_shape s).
Proof.
  pose proof (valid_iff_shape s) as Hiff.
  split; [exact Hiff|].
  destruct (Frontend.isValidAddress s); split; intros Hs.
  - discriminate.
  - exfalso. apply Hs, Hiff. reflexivity.
  - intros Hshape. apply Hiff in Hshape. discriminate.
  - reflexivity.
Qed.

(** The strings section 4.1 lists are rejected, and either case is accepted. *)
Example isValidAddress_samples :
  Frontend.isValidAddress "" = false /\
  Frontend.isValidAddress "0x742d35Cc6635Bb000000000000000000000000" = false /\
  Frontend.isValidAddress "0x742d35Cc6635Bb0000000000000000000000000g" = false /\
  Frontend.isValidAddress "742d35cc6635bb00000000000000000000000000" = false /\
  Frontend.isValidAddress "not-an-address" = false /\
  Frontend.isValidAddress "0x742d35cc6635bb00000000000000000000000000" = true /\
  Frontend.isValidAddress "0x742D35CC6635BB00000000000000000000000000" = true /\
  Frontend.isValidAddress "0x742d35Cc6635Bb00000000000000000000000000" = true.
Proof. repeat split; reflexivity. Qed.

End RegexFacts.

(** ** The handler *)

(** Symbolic execution of handler code: compute up to the next test that
    depends on the request, the map or the chain, and split on it. *)
Ltac handler_case :=
  match goal with
  | |- context [match ?x with _ => _ end] => destruct x eqn:?
  | |- context [Server.settle ?o] => destruct o eqn:?
  end.

Ltac handler_run := cbn; repeat (handler_case; cbn).

(** Boolean tests on integers, as propositions. *)
Ltac tests_to_props :=
  repeat match goal with
  | T : (_ <? _)%Z = true |- _ => apply Z.ltb_lt in T
  | T : (_ <? _)%Z = false |- _ => apply Z.ltb_ge in T
  | T : (_ >? _)%Z = true |- _ => apply Z.gtb_lt in T
  | T : (_ >? _)%Z = false |- _ => rewrite Z.gtb_ltb in T; apply Z.ltb_ge in T
  | T : (_ <=? _)%Z = true |- _ => apply Z.leb_le in T
  | T : (_ <=? _)%Z = false |- _ => apply Z.leb_gt in T
  | T : (_ =? _)%Z = true |- _ => apply Z.eqb_eq in T
  | T : (_ =? _)%Z = false |- _ => apply Z.eqb_neq in T
  | T : negb _ = true |- _ => apply negb_true_iff in T
  | T : negb _ = false |- _ => apply negb_false_iff in T
  | T : (_ || _) = true |- _ => apply orb_prop in T; destruct T
  | T : (_ || _) = false |- _ => apply orb_false_elim in T; destruct T
  end.

(** Close a branch the hypotheses exclude. *)
Ltac excluded := exfalso; simplify_eq/=; tests_to_props; first [congruence | lia].

Section HandlerFacts.

Import Server JsString.
Local Open Scope Z_scope.

Context `{Ethers}.
Variable faucetWallet_address : string.

Lemma ADDRESS_COOLDOWN_ms : ADDRESS_COOLDOWN = 3600 * 1000.
Proof. reflexivity. Qed.

(** The cooldown check reads the map and the clock and changes nothing. *)
Lemma check_value (chain : Chain) (clock : nat -> Z) (a : string) (n : nat) (w : World) :
  exec chain clock (checkAddressCooldown a) n w =
  (Fulfilled
     match addressCooldowns w !! toLowerCase a with
     | None => true
     | Some t => (t =? 0) || (ADDRESS_COOLDOWN <=? clock n - t)
     end, w).
Proof.
  unfold checkAddressCooldown. cbn.
  destruct (addressCooldowns w !! toLowerCase a) as [t|]; cbn; [|reflexivity].
  destruct (Z.eqb_spec t 0); cbn; [reflexivity|].
  destruct (Z.ltb_spec (clock n - t) ADDRESS_COOLDOWN),
    (Z.leb_spec ADDRESS_COOLDOWN (clock n - t)); try reflexivity; lia.
Qed.

Variable chain : Chain.
Variable clock : nat -> Z.

Local Abbreviation handle req w :=
  (exec chain clock (faucet faucetWallet_address req) 0 w).
Local Abbreviation check a n w := (exec chain clock (checkAddressCooldown a) n w).
Local Abbreviation transfer a :=
  {| to := a; value := FAUCET_AMOUNT; gasLimit := 21000 |}.

(** The handler only stores readings of the clock. *)
Lemma handle_keeps_timestamps_positive (req : Request) (w : World) :
  0 < clock 3 ->
  timestamps_positive w ->
  timestamps_positive (snd (handle req w)).
Proof.
  intros Hclock Hw. unfold timestamps_positive in *.
  unfold faucet, checkAddressCooldown, updateAddressCooldown, on_error.
  handler_run; try exact Hw.
  all: now apply map_Forall_insert_2.
Qed.

Lemma empty_timestamps_positive (events : list Event) :
  timestamps_positive {| addressCooldowns := ∅; trace := events |}.
Proof. apply map_Forall_empty. Qed.

(** The server's validator is [ethers.isAddress], a thrown error counting
    as a refusal. *)
Lemma isValidAddress_isAddress (a : string) :
  isValidAddress a = true <-> isAddress a = Fulfilled true.
Proof.
  unfold isValidAddress. destruct (isAddress a) as [[]|e]; split; congruence.
Qed.

(** C2. With a recorded timestamp [t] (the map holding readings of
    [Date.now()], positive counts of milliseconds) the cooldown check passes
    if and only if [now - t] is at least the window of 3600 seconds, the
    boundary [now - t = window] included; with no recorded entry it passes.
    The check changes nothing. *)
Theorem checkAddressCooldown_window (a : string) (n : nat) (w : World) :
  timestamps_positive w ->
  check a n w =
    (Fulfilled
       match addressCooldowns w !! toLowerCase a with
       | None => true
       | Some t => 3600 * 1000 <=? clock n - t
       end, w).
Proof.
  intros Hpos. rewrite check_value.
  destruct (addressCooldowns w !! toLowerCase a) as [t|] eqn:Hentry; [|reflexivity].
  apply (map_Forall_lookup_1 _ _ _ _ Hpos) in Hentry. rewrite ADDRESS_COOLDOWN_ms.
  destruct (Z.eqb_spec t 0); [lia | reflexivity].
Qed.

(** C10. A request rejected before the broadcast (missing address, invalid
    address, cooldown active, reserve below the threshold, recipient already
    funded) leaves the cooldown map as it was. *)
Theorem rejection_keeps_cooldowns (req : Request) (w : World) (r : Response) :
  fst (handle req w) = Fulfilled r ->
  r = AddressRequired \/ r = InvalidAddress \/ r = CooldownActive \/
  r = ReserveLow \/ r = RecipientAlreadyFunded ->
  addressCooldowns (snd (handle req w)) = addressCooldowns w.
Proof.
  unfold faucet, checkAddressCooldown, updateAddressCooldown, on_error.
  handler_run; try reflexivity.
  all: intros [= <-]; intros [Hr|[Hr|[Hr|[Hr|Hr]]]]; discriminate Hr.
Qed.

(** C1, as the code has it.  Past the address, cooldown and reserve checks,
    a recipient whose balance is strictly above the ceiling of 5 ETH is
    rejected with [RecipientAlreadyFunded] (400); the request issued the two
    balance queries and nothing else, so no transfer was attempted. *)
Theorem funded_recipient_rejected (a : string) (w : World) (fb rb : Z) :
  falsy a = false ->
  isValidAddress a = true ->
  fst (check a 0 w) = Fulfilled true ->
  getBalance chain faucetWallet_address = Fulfilled fb ->
  MIN_BALANCE <= fb ->
  getBalance chain a = Fulfilled rb ->
  parseEther "5.0" < rb ->
  handle {| address := Some a |} w =
    (Fulfilled RecipientAlreadyFunded,
     record (EGetBalance a) (record (EGetBalance faucetWallet_address) w)) /\
  transfer_attempted (snd (handle {| address := Some a |} w)) = transfer_attempted w.
Proof.
  intros Hne Hvalid Hcheck Hfb Hmin Hrb Hceil.
  assert (Hrun : handle {| address := Some a |} w =
    (Fulfilled RecipientAlreadyFunded,
     record (EGetBalance a) (record (EGetBalance faucetWallet_address) w))).
  { revert Hne Hvalid Hcheck Hfb Hmin Hrb Hceil. rewrite check_value.
    unfold faucet, checkAddressCooldown, updateAddressCooldown, on_error.
    handler_run; intros; try reflexivity; excluded. }
  split; [exact Hrun|]. rewrite Hrun. unfold transfer_attempted, record. cbn.
  rewrite <- app_assoc, existsb_app. cbn. apply orb_false_r.
Qed.

Lemma transfer_attempted_record (e : Event) (w : World) :
  transfer_attempted (record e w) = transfer_attempted w || is_send e.
Proof.
  unfold transfer_attempted, record. cbn. rewrite existsb_app. cbn.
  now rewrite orb_false_r.
Qed.

Lemma transfer_attempted_store (key : string) (v : Z) (w : World) :
  transfer_attempted (store key v w) = transfer_attempted w.
Proof.
  unfold transfer_attempted, store. cbn. rewrite existsb_app. cbn.
  now rewrite orb_false_r.
Qed.

Local Arguments transfer_attempted : simpl never.

(** C3, as the code has it.  A transfer is attempted only if the reserve
    read at check time is at least the threshold of 1.0 ETH; a reserve equal
    to the threshold passes the reserve check, and the transfer is then
    attempted when the recipient is not above the ceiling. *)
Theorem transfer_only_with_reserve (req : Request) (w : World) :
  transfer_attempted w = false ->
  (transfer_attempted (snd (handle req w)) = true ->
   exists fb, getBalance chain faucetWallet_address = Fulfilled fb /\
              parseEther "1.0" <= fb) /\
  (forall a rb,
     req = {| address := Some a |} ->
     falsy a = false ->
     isValidAddress a = true ->
     fst (check a 0 w) = Fulfilled true ->
     getBalance chain faucetWallet_address = Fulfilled (parseEther "1.0") ->
     getBalance chain a = Fulfilled rb ->
     rb <= parseEther "5.0" ->
     transfer_attempted (snd (handle req w)) = true).
Proof.
  intros Hw. split.
  - unfold faucet, checkAddressCooldown, updateAddressCooldown, on_error.
    handler_run;
      repeat (rewrite transfer_attempted_record || rewrite transfer_attempted_store);
      rewrite ?Hw; cbn;
      intros; try discriminate; tests_to_props; eauto.
  - intros a rb ->. rewrite check_value.
    unfold faucet, checkAddressCooldown, updateAddressCooldown, on_error.
    handler_run;
      repeat (rewrite transfer_attempted_record || rewrite transfer_attempted_store);
      rewrite ?Hw; cbn;
      intros; try reflexivity; unfold MIN_BALANCE in *; excluded.
Qed.

(** C4, as the code has it.  With the reserve below the threshold no
    transfer is attempted, whatever the request.  The answer follows the
    order of the checks: a missing or malformed address is rejected with 400
    and a cooling-down address with 429 before the reserve is read; a request
    past those checks is rejected with [ReserveLow] (503). *)
Theorem low_reserve_no_transfer (req : Request) (w : World) (fb : Z) :
  transfer_attempted w = false ->
  getBalance chain faucetWallet_address = Fulfilled fb ->
  fb < MIN_BALANCE ->
  transfer_attempted (snd (handle req w)) = false /\
  fst (handle req w) =
    Fulfilled
      match address req with
      | None => AddressRequired
      | Some a =>
          if falsy a then AddressRequired
          else if negb (isValidAddress a) then InvalidAddress
          else
            match fst (check a 0 w) with
            | Fulfilled true => ReserveLow
            | _ => CooldownActive
            end
      end.
Proof.
  intros Hw. destruct req as [[a|]]; cbn [address]; rewrite ?check_value.
  all: unfold faucet, checkAddressCooldown, updateAddressCooldown, on_error.
  all: handler_run;
    repeat (rewrite transfer_attempted_record || rewrite transfer_attempted_store);
    rewrite ?Hw; cbn;
    intros; try (split; reflexivity); excluded.
Qed.

(** The world once the transfer to [a] has been broadcast as [transaction],
    the cooldown recorded and the confirmation awaited. *)
Local Abbreviation broadcast_world a transaction w :=
  (record (EWait transaction 1)
     (store (toLowerCase a) (clock 3)
        (record (ESendTransaction (transfer a))
           (record (ELog ("Sending " +:+ formatEther FAUCET_AMOUNT +:+ " ETH to " +:+ a))
              (record (EGetBalance a)
                 (record (EGetBalance faucetWallet_address) w)))))).

(** A request past the four checks whose broadcast succeeds: the answer
    depends only on how the confirmation settles. *)
Lemma handle_broadcast (a : string) (w : World) (fb rb : Z)
    (transaction : TransactionResponse) :
  falsy a = false ->
  isValidAddress a = true ->
  fst (check a 0 w) = Fulfilled true ->
  getBalance chain faucetWallet_address = Fulfilled fb ->
  MIN_BALANCE <= fb ->
  getBalance chain a = Fulfilled rb ->
  rb <= parseEther "5.0" ->
  sendTransaction chain (transfer a) = Fulfilled transaction ->
  handle {| address := Some a |} w =
    match wait chain transaction 1 with
    | Fulfilled receipt =>
        (Fulfilled (json 200 (SuccessBody (hash transaction)
                                (formatEther FAUCET_AMOUNT) (blockNumber receipt))),
         record (ELog ("Transaction successful: " +:+ hash transaction))
           (broadcast_world a transaction w))
    | Rejected e =>
        (Fulfilled (if code_is e "INSUFFICIENT_FUNDS" then InsufficientFunds
                    else if code_is e "NETWORK_ERROR" then NetworkError
                    else InternalError),
         record (ELog "Faucet error:") (broadcast_world a transaction w))
    end.
Proof.
  rewrite check_value.
  unfold faucet, checkAddressCooldown, updateAddressCooldown, on_error.
  handler_run; intros; simplify_eq/=; try reflexivity; first [congruence | excluded].
Qed.

Lemma trace_broadcast_world (a : string) (transaction : TransactionResponse) (w : World) :
  trace (broadcast_world a transaction w) =
  ((trace w ++
    [EGetBalance faucetWallet_address; EGetBalance a;
     ELog ("Sending " +:+ formatEther FAUCET_AMOUNT +:+ " ETH to " +:+ a)]) ++
   [ESendTransaction (transfer a); ESet (toLowerCase a) (clock 3);
    EWait transaction 1])%list.
Proof. cbn. now rewrite <- !app_assoc. Qed.

(** C5. When the broadcast succeeds, the cooldown entry of the address is
    written right after the [sendTransaction] call and before the
    confirmation wait is issued, with the time read at that moment; however
    the confirmation settles (nothing is assumed of it), the entry is in the
    map when the handler ends, and a later check inside the window fails. *)
Theorem cooldown_recorded_at_broadcast (a : string) (w : World) (fb rb : Z)
    (transaction : TransactionResponse) :
  falsy a = false ->
  isValidAddress a = true ->
  fst (check a 0 w) = Fulfilled true ->
  getBalance chain faucetWallet_address = Fulfilled fb ->
  MIN_BALANCE <= fb ->
  getBalance chain a = Fulfilled rb ->
  rb <= parseEther "5.0" ->
  sendTransaction chain (transfer a) = Fulfilled transaction ->
  0 < clock 3 ->
  let w' := snd (handle {| address := Some a |} w) in
  (exists before after,
     trace w' =
       (before ++
        [ESendTransaction (transfer a); ESet (toLowerCase a) (clock 3);
         EWait transaction 1] ++ after)%list) /\
  addressCooldowns w' = <[toLowerCase a := clock 3]> (addressCooldowns w) /\
  (forall (chain' : Chain) (clock' : nat -> Z) (n : nat),
     clock' n - clock 3 < ADDRESS_COOLDOWN ->
     fst (exec chain' clock' (checkAddressCooldown a) n w') = Fulfilled false).
Proof.
  intros Hne Hvalid Hcheck Hfb Hmin Hrb Hceil Hsent Hpos w'.
  assert (Hmap : addressCooldowns w' = <[toLowerCase a := clock 3]> (addressCooldowns w)).
  { subst w'. rewrite (handle_broadcast a w fb rb transaction) by assumption.
    destruct (wait chain transaction 1); reflexivity. }
  split; [|split; [exact Hmap|]].
  - subst w'. rewrite (handle_broadcast a w fb rb transaction) by assumption.
    destruct (wait chain transaction 1); cbn [snd];
      eexists _, [_]; unfold record at 1; cbn [trace];
      rewrite trace_broadcast_world, <- app_assoc; reflexivity.
  - intros chain' clock' n Hin. rewrite check_value, Hmap, lookup_insert_eq. cbn.
    destruct (Z.eqb_spec (clock 3) 0); [lia|].
    destruct (Z.leb_spec ADDRESS_COOLDOWN (clock' n - clock 3)); [lia | reflexivity].
Qed.

(** C6, as the code has it.  When the confirmation wait fails after the
    broadcast, the rejection reaches the [catch] block, which answers with an
    error chosen by the error code: 503 for [INSUFFICIENT_FUNDS], 502 for
    [NETWORK_ERROR], 500 otherwise.  The cooldown entry stays recorded. *)
Theorem failed_confirmation_is_an_error (a : string) (w : World) (fb rb : Z)
    (transaction : TransactionResponse) (e : Error) :
  falsy a = false ->
  isValidAddress a = true ->
  fst (check a 0 w) = Fulfilled true ->
  getBalance chain faucetWallet_address = Fulfilled fb ->
  MIN_BALANCE <= fb ->
  getBalance chain a = Fulfilled rb ->
  rb <= parseEther "5.0" ->
  sendTransaction chain (transfer a) = Fulfilled transaction ->
  wait chain transaction 1 = Rejected e ->
  fst (handle {| address := Some a |} w) =
    Fulfilled (if code_is e "INSUFFICIENT_FUNDS" then InsufficientFunds
               else if code_is e "NETWORK_ERROR" then NetworkError
               else InternalError) /\
  addressCooldowns (snd (handle {| address := Some a |} w)) =
    <[toLowerCase a := clock 3]> (addressCooldowns w).
Proof.
  intros Hne Hvalid Hcheck Hfb Hmin Hrb Hceil Hsent Hwait.
  rewrite (handle_broadcast a w fb rb transaction) by assumption.
  rewrite Hwait. split; reflexivity.
Qed.

End HandlerFacts.

(** ** The two validators, and the scenario of the specification *)

Section ValidatorFacts.

Import Server JsString.
Local Open Scope Z_scope.

Context `{Ethers}.

(** C8, as the code has it.  The validator of the form accepts exactly the
    address shape, the prefix [0x] and forty hexadecimal digits of either
    case, and refuses every other string.  The validator of the server does
    not look at the shape: it accepts exactly what [ethers.isAddress]
    accepts, and refuses what the library refuses or throws on. *)
Theorem validators_and_the_address_shape (s : string) :
  (Frontend.isValidAddress s = true <-> address_shape s) /\
  (Frontend.isValidAddress s = false <-> ~ address_shape s) /\
  (isValidAddress s = true <-> isAddress s = Fulfilled true) /\
  (isValidAddress s = false <->
   isAddress s = Fulfilled false \/ exists e, isAddress s = Rejected e).
Proof.
  pose proof (valid_iff_shape s) as Hform.
  split; [exact Hform|]. split.
  - destruct (Frontend.isValidAddress s); split; intros Hs.
    + discriminate.
    + exfalso. apply Hs, Hform. reflexivity.
    + intros Hshape. apply Hform in Hshape. discriminate.
    + reflexivity.
  - unfold isValidAddress. destruct (isAddress s) as [[]|e]; repeat split;
      try congruence; eauto; intros [Hs | [e' Hs]]; discriminate Hs.
Qed.

(** C9, with an address the validator accepts.  For a request whose address
    is not empty and passes [ethers.isAddress], a reserve of 10 ETH, a
    recipient without funds, no cooldown entry, and a broadcast and a
    confirmation that succeed, the answer is 200 with the amount ["0.1"].
    The library is any one on which 1.0 ETH is at most 10 ETH, 5.0 ETH is
    not negative and 0.1 ETH is printed back as ["0.1"]. *)
Theorem valid_request_served (fw a : string) (chain : Chain) (clock : nat -> Z)
    (w : World) (transaction : TransactionResponse) (receipt : TransactionReceipt) :
  falsy a = false ->
  isValidAddress a = true ->
  addressCooldowns w !! toLowerCase a = None ->
  getBalance chain fw = Fulfilled (parseEther "10") ->
  getBalance chain a = Fulfilled 0 ->
  sendTransaction chain {| to := a; value := FAUCET_AMOUNT; gasLimit := 21000 |}
    = Fulfilled transaction ->
  wait chain transaction 1 = Fulfilled receipt ->
  parseEther "1.0" <= parseEther "10" ->
  0 <= parseEther "5.0" ->
  formatEther (parseEther "0.1") = "0.1" ->
  fst (exec chain clock (faucet fw {| address := Some a |}) 0 w) =
    Fulfilled (json 200 (SuccessBody (hash transaction) "0.1" (blockNumber receipt))).
Proof.
  intros Hne Hvalid Hfresh Hfb Hrb Hsent Hwait Hreserve Hceiling Hprinted.
  rewrite (handle_broadcast fw chain clock a w (parseEther "10") 0 transaction);
    try assumption.
  - rewrite Hwait. cbn [fst]. unfold FAUCET_AMOUNT. now rewrite Hprinted.
  - rewrite check_value, Hfresh. reflexivity.
Qed.

End ValidatorFacts.

(** ** Handlers in flight together *)

Section ProcessFacts.

Import Server JsString.
Local Open Scope Z_scope.

Context `{Ethers}.
Variable faucetWallet_address : string.

Local Abbreviation handler a := (faucet faucetWallet_address {| address := Some a |}).
Local Abbreviation transfer a :=
  {| to := a; value := FAUCET_AMOUNT; gasLimit := 21000 |}.

(** [exec] is the event loop with one handler: run to the next awaited call,
    let it settle, go on. *)
Lemma exec_run_to_await {R : Type} (chain : Chain) (clock : nat -> Z) (p : prog R) :
  forall (n : nat) (w : World),
    exec chain clock p n w =
    match run_to_await (clock n) p w with
    | (Ret r, w') => (Fulfilled r, w')
    | (Throw e, w') => (Rejected e, w')
    | (p', w') => exec chain clock (resume chain p') (S n) w'
    end.
Proof.
  unfold run_to_await.
  induction p as [r | e | k IH | key k IH | key v k IH | line k IH
                 | account k _ | tx k _ | tx confirms k _]; intros n w; cbn;
    try reflexivity.
  - rewrite IH. now destruct (advance _ _ _).
  - rewrite IH. now destruct (advance _ _ _).
  - rewrite IH. now destruct (advance _ _ _).
  - rewrite IH. now destruct (advance _ _ _).
Qed.

(** While the confirmation is awaited the cooldown is already in the map:
    once the broadcast has settled at time [t3], the handler is suspended at
    [transaction.wait] and the entry of the address is [t3]. *)
Lemma cooldown_recorded_while_waiting (a : string) (w : World) (chain : Chain)
    (fb rb : Z) (transaction : TransactionResponse) (t1 s1 s2 t3 : Z) :
  falsy a = false ->
  isValidAddress a = true ->
  addressCooldowns w !! toLowerCase a = None ->
  getBalance chain faucetWallet_address = Fulfilled fb ->
  MIN_BALANCE <= fb ->
  getBalance chain a = Fulfilled rb ->
  rb <= parseEther "5.0" ->
  sendTransaction chain (transfer a) = Fulfilled transaction ->
  exists k,
    run {| world := w; tasks := [] |}
      [Arrive t1 (handler a); Settle s1 0 chain; Settle s2 0 chain; Settle t3 0 chain] =
    {| world :=
         record (EWait transaction 1)
           (store (toLowerCase a) t3
              (record (ESendTransaction (transfer a))
                 (record (ELog ("Sending " +:+ formatEther FAUCET_AMOUNT
                                  +:+ " ETH to " +:+ a))
                    (record (EGetBalance a)
                       (record (EGetBalance faucetWallet_address) w)))));
       tasks := [AwaitWait transaction 1 k] |}.
Proof.
  intros Hne Hvalid Hfresh Hfb Hmin Hrb Hceil Hsent.
  unfold faucet, checkAddressCooldown, updateAddressCooldown. cbn.
  rewrite Hne, Hvalid. unfold run_to_await. cbn.
  rewrite Hfresh. cbn. rewrite Hfb. cbn.
  destruct (Z.ltb_spec fb MIN_BALANCE); [lia|]. cbn. rewrite Hrb. cbn.
  rewrite Z.gtb_ltb. destruct (Z.ltb_spec (parseEther "5.0") rb); [lia|]. cbn.
  rewrite Hsent. cbn. eexists. reflexivity.
Qed.

(** Nothing serialises the cooldown check and the cooldown update of two
    requests for the same address.  When both
    requests arrive before any awaited call of the first has settled, both
    pass the cooldown check: both handlers are suspended at the reserve
    query that follows it.  The second request is rejected with
    [CooldownActive] when it arrives, inside the window, after the broadcast
    of the first has settled and its cooldown has been recorded. *)
Theorem same_address_requests (a : string) (w : World) (t1 t2 : Z) :
  falsy a = false ->
  isValidAddress a = true ->
  addressCooldowns w !! toLowerCase a = None ->
  (exists k1 k2,
     tasks (run {| world := w; tasks := [] |}
              [Arrive t1 (handler a); Arrive t2 (handler a)]) =
     [AwaitGetBalance faucetWallet_address k1;
      AwaitGetBalance faucetWallet_address k2]) /\
  (forall (chain : Chain) (fb rb : Z) (transaction : TransactionResponse)
          (s1 s2 t3 : Z),
     getBalance chain faucetWallet_address = Fulfilled fb ->
     MIN_BALANCE <= fb ->
     getBalance chain a = Fulfilled rb ->
     rb <= parseEther "5.0" ->
     sendTransaction chain (transfer a) = Fulfilled transaction ->
     0 < t3 ->
     t2 - t3 < ADDRESS_COOLDOWN ->
     tasks (run {| world := w; tasks := [] |}
              [Arrive t1 (handler a); Settle s1 0 chain; Settle s2 0 chain;
               Settle t3 0 chain; Arrive t2 (handler a)]) !! 1%nat =
     Some (Ret CooldownActive)).
Proof.
  intros Hne Hvalid Hfresh. split.
  - unfold faucet, checkAddressCooldown. cbn.
    rewrite Hne, Hvalid. unfold run_to_await. cbn.
    rewrite Hfresh. cbn. rewrite Hfresh. cbn.
    eexists _, _. reflexivity.
  - intros chain fb rb transaction s1 s2 t3 Hfb Hmin Hrb Hceil Hsent Hpos Hin.
    unfold faucet, checkAddressCooldown, updateAddressCooldown. cbn.
    rewrite Hne, Hvalid. unfold run_to_await. cbn.
    rewrite Hfresh. cbn. rewrite Hfb. cbn.
    destruct (Z.ltb_spec fb MIN_BALANCE); [lia|]. cbn. rewrite Hrb. cbn.
    rewrite Z.gtb_ltb. destruct (Z.ltb_spec (parseEther "5.0") rb); [lia|]. cbn.
    rewrite Hsent. cbn. rewrite lookup_insert_eq. cbn.
    destruct (Z.eqb_spec t3 0); [lia|]. cbn.
    destruct (Z.ltb_spec (t2 - t3) ADDRESS_COOLDOWN); [|lia]. reflexivity.
Qed.

End ProcessFacts.

(** ** The handler on concrete chains, with the model of [ethers] *)

Section Scenarios.

Import Server JsString EthersModel Scenario.
Local Open Scope Z_scope.

Local Abbreviation serve chain req w :=
  (exec chain clock (faucet faucet_address req) 0 w).

Lemma model_amounts :
  parseEther "0.1" = ETH / 10 /\ parseEther "1.0" = ETH /\
  parseEther "5.0" = 5 * ETH /\ parseEther "10" = 10 * ETH /\
  formatEther (parseEther "0.1") = "0.1".
Proof. vm_compute. repeat split; reflexivity. Qed.

Lemma model_thresholds :
  MIN_BALANCE <= parseEther "10" /\ 0 <= parseEther "5.0" /\
  formatEther FAUCET_AMOUNT = "0.1".
Proof. vm_compute. repeat split; discriminate. Qed.

Lemma address_shape_not_falsy (a : string) : address_shape a -> falsy a = false.
Proof. intros (digits & -> & _). reflexivity. Qed.

(** *** The theorems above at concrete requests *)

Ltac evaluate := vm_compute; first [reflexivity | discriminate].

Lemma checkAddressCooldown_window_witness :
  exec healthy (fun _ => arrival + 3600 * 1000) (checkAddressCooldown recipient) 0
    (served arrival) = (Fulfilled true, served arrival).
Proof.
  rewrite (checkAddressCooldown_window healthy (fun _ => arrival + 3600 * 1000)
             recipient 0%nat (served arrival)).
  - evaluate.
  - unfold timestamps_positive. refine (bool_decide_unpack _ _). evaluate.
Defined.

Lemma rejection_keeps_cooldowns_witness :
  addressCooldowns (snd (serve low (request recipient) (served 1))) =
  addressCooldowns (served 1).
Proof.
  apply (rejection_keeps_cooldowns faucet_address low clock (request recipient)
           (served 1) ReserveLow).
  - evaluate.
  - right. right. right. left. reflexivity.
Defined.

Lemma funded_recipient_rejected_witness :
  serve funded (request recipient) fresh =
    (Fulfilled RecipientAlreadyFunded,
     record (EGetBalance recipient) (record (EGetBalance faucet_address) fresh)) /\
  transfer_attempted (snd (serve funded (request recipient) fresh)) =
    transfer_attempted fresh.
Proof.
  apply (funded_recipient_rejected faucet_address funded clock recipient fresh
           (10 * ETH) (6 * ETH)); evaluate.
Defined.

(** C1 fails at the ceiling.  A recipient holding exactly 5 ETH, past the
    other checks, is not rejected: the transfer is broadcast and the answer
    is 200. *)
Lemma recipient_at_ceiling_is_served :
  getBalance at_ceiling recipient = Fulfilled (parseEther "5.0") /\
  fst (serve at_ceiling (request recipient) fresh) =
    Fulfilled (json 200 (SuccessBody "0xfeed" "0.1" 4242)) /\
  fst (serve at_ceiling (request recipient) fresh) <> Fulfilled RecipientAlreadyFunded /\
  transfer_attempted (snd (serve at_ceiling (request recipient) fresh)) = true.
Proof. vm_compute. repeat split; discriminate. Qed.

Lemma transfer_only_with_reserve_witness :
  exists fb,
    getBalance at_threshold faucet_address = Fulfilled fb /\ parseEther "1.0" <= fb.
Proof.
  destruct (transfer_only_with_reserve faucet_address at_threshold clock
              (request recipient) fresh) as [Honly Hboundary]; [evaluate|].
  apply Honly.
  apply (Hboundary recipient 0); evaluate.
Defined.

(** C3 fails at the threshold.  With a reserve of exactly 1.0 ETH the
    request is not rejected with [ReserveLow]: the transfer is broadcast and
    the answer is 200. *)
Lemma reserve_at_threshold_is_served :
  getBalance at_threshold faucet_address = Fulfilled (parseEther "1.0") /\
  fst (serve at_threshold (request recipient) fresh) =
    Fulfilled (json 200 (SuccessBody "0xfeed" "0.1" 4242)) /\
  fst (serve at_threshold (request recipient) fresh) <> Fulfilled ReserveLow /\
  transfer_attempted (snd (serve at_threshold (request recipient) fresh)) = true.
Proof. vm_compute. repeat split; discriminate. Qed.

Lemma low_reserve_no_transfer_witness :
  transfer_attempted (snd (serve low (request recipient) fresh)) = false /\
  fst (serve low (request recipient) fresh) = Fulfilled ReserveLow.
Proof.
  assert (Hfresh : transfer_attempted fresh = false) by evaluate.
  assert (Hreserve : getBalance low faucet_address = Fulfilled (ETH / 2)) by evaluate.
  assert (Hlow : ETH / 2 < MIN_BALANCE) by evaluate.
  destruct (low_reserve_no_transfer faucet_address low clock (request recipient)
              fresh (ETH / 2) Hfresh Hreserve Hlow) as [Hnone Hanswer].
  split; [exact Hnone | rewrite Hanswer; evaluate].
Defined.

(** C4 fails for a malformed address and for a cooling-down one.  With the
    reserve below the threshold, ["not-an-address"] is answered 400
    [InvalidAddress] and an address served a moment ago 429
    [CooldownActive], not 503 [ReserveLow]. *)
Lemma low_reserve_other_rejections :
  getBalance low faucet_address = Fulfilled (ETH / 2) /\
  ETH / 2 < MIN_BALANCE /\
  fst (serve low (request "not-an-address") fresh) = Fulfilled InvalidAddress /\
  fst (serve low (request recipient) (served (clock 0 - 1))) = Fulfilled CooldownActive /\
  InvalidAddress <> ReserveLow /\ CooldownActive <> ReserveLow.
Proof. vm_compute. repeat split; discriminate. Qed.

Lemma cooldown_recorded_at_broadcast_witness :
  addressCooldowns (snd (serve unconfirmed (request recipient) fresh)) =
  <[toLowerCase recipient := clock 3]> (addressCooldowns fresh).
Proof.
  apply (cooldown_recorded_at_broadcast faucet_address unconfirmed clock recipient
           fresh (10 * ETH) 0 sent); evaluate.
Defined.

Lemma failed_confirmation_is_an_error_witness :
  fst (serve unconfirmed (request recipient) fresh) = Fulfilled NetworkError /\
  addressCooldowns (snd (serve unconfirmed (request recipient) fresh)) =
    <[toLowerCase recipient := clock 3]> (addressCooldowns fresh).
Proof.
  apply (failed_confirmation_is_an_error faucet_address unconfirmed clock recipient
           fresh (10 * ETH) 0 sent network_down); evaluate.
Defined.

(** C6 fails.  The transfer is broadcast, the confirmation wait fails with a
    network error, and the answer is the 502 error, not a success carrying
    the transaction hash. *)
Lemma failed_confirmation_not_success :
  sendTransaction unconfirmed {| to := recipient; value := FAUCET_AMOUNT; gasLimit := 21000 |}
    = Fulfilled sent /\
  wait unconfirmed sent 1 = Rejected network_down /\
  transfer_attempted (snd (serve unconfirmed (request recipient) fresh)) = true /\
  fst (serve unconfirmed (request recipient) fresh) =
    Fulfilled (json 502 (ErrorBody "Network error. Please try again later.")).
Proof. vm_compute. repeat split. Qed.

Lemma same_address_requests_witness :
  tasks (run {| world := fresh; tasks := [] |}
           [Arrive arrival (faucet faucet_address (request recipient));
            Settle (arrival + 1) 0 healthy; Settle (arrival + 2) 0 healthy;
            Settle (arrival + 3) 0 healthy;
            Arrive (arrival + 4) (faucet faucet_address (request recipient))])
    !! 1%nat = Some (Ret CooldownActive).
Proof.
  refine (proj2 (same_address_requests faucet_address recipient fresh arrival
                   (arrival + 4) _ _ _)
            healthy (10 * ETH) 0 sent (arrival + 1) (arrival + 2) (arrival + 3)
            _ _ _ _ _ _ _); evaluate.
Defined.

(** C7.  Of two requests for the same fresh address that arrive at the same
    instant exactly one should pass the cooldown check and the other be
    answered [CooldownActive].  The code lets both through: both transfers
    are broadcast and both answers are 200; neither is [CooldownActive]. *)
Lemma simultaneous_requests_both_served :
  tasks raced =
    [Ret (json 200 (SuccessBody "0xfeed" "0.1" 4242));
     Ret (json 200 (SuccessBody "0xfeed" "0.1" 4242))] /\
  transfers (world raced) = 2%nat /\
  json 200 (SuccessBody "0xfeed" "0.1" 4242) <> CooldownActive.
Proof. vm_compute. repeat split; discriminate. Qed.

Lemma valid_request_served_witness :
  fst (serve healthy (request recipient) fresh) =
  Fulfilled (json 200 (SuccessBody (hash sent) "0.1" (blockNumber mined))).
Proof.
  apply (valid_request_served faucet_address recipient healthy clock fresh sent mined);
    evaluate.
Defined.

(** C8 fails for the validator of the server.  It accepts the forty digits
    without the prefix, which are not of the shape, and it refuses a string
    of the shape whose mixed case is not the checksum of its digits. *)
Lemma server_validator_differs_from_shape :
  isValidAddress "742d35cc6635bb00000000000000000000000000" = true /\
  ~ address_shape "742d35cc6635bb00000000000000000000000000" /\
  address_shape "0x742d35Cc6635Bb00000000000000000000000000" /\
  isValidAddress "0x742d35Cc6635Bb00000000000000000000000000" = false.
Proof.
  split; [evaluate|]. split; [|split; [|evaluate]].
  - intros Hshape. apply valid_iff_shape in Hshape. vm_compute in Hshape.
    discriminate Hshape.
  - apply valid_iff_shape. evaluate.
Qed.

(** C9 fails for the address of the scenario.  It has thirty-eight digits,
    the validator refuses it and the answer is 400 [InvalidAddress]. *)
Lemma scenario_address_rejected :
  String.length scenario_address = 40%nat /\
  isValidAddress scenario_address = false /\
  serve healthy (request scenario_address) fresh = (Fulfilled InvalidAddress, fresh).
Proof. vm_compute. repeat split. Qed.

End Scenarios.

(** ** More on the handler *)

Section HandlerMore.

Import Server JsString Invariant.
Local Open Scope Z_scope.

Context `{Ethers}.
Variable faucetWallet_address : string.
Variable chain : Chain.
Variable clock : nat -> Z.

Local Abbreviation handle req w :=
  (exec chain clock (faucet faucetWallet_address req) 0 w).
Local Abbreviation check a n w := (exec chain clock (checkAddressCooldown a) n w).
Local Abbreviation transfer a :=
  {| to := a; value := FAUCET_AMOUNT; gasLimit := 21000 |}.

Local Arguments transfer_attempted : simpl never.
Local Arguments transfers : simpl never.

Lemma transfers_record (e : Event) (w : World) :
  transfers (record e w) = (transfers w + if is_send e then 1 else 0)%nat.
Proof.
  unfold transfers, record. cbn [trace]. rewrite List.filter_app, length_app.
  cbn. now destruct (is_send e).
Qed.

Lemma transfers_store (key : string) (v : Z) (w : World) :
  transfers (store key v w) = transfers w.
Proof.
  unfold transfers, store. cbn [trace]. rewrite List.filter_app, length_app.
  cbn. lia.
Qed.

(** Once every awaited call has settled, the handler has answered: the
    answer is one of the eight refusals, or the success that carries the
    hash of the broadcast transaction, the fixed amount and the block of the
    receipt. *)
Theorem faucet_always_answers (req : Request) (w : World) :
  exists r,
    fst (handle req w) = Fulfilled r /\
    (In r refusals \/
     exists a transaction receipt,
       address req = Some a /\
       sendTransaction chain (transfer a) = Fulfilled transaction /\
       wait chain transaction 1 = Fulfilled receipt /\
       r = json 200 (SuccessBody (hash transaction) (formatEther FAUCET_AMOUNT)
                       (blockNumber receipt))).
Proof.
  unfold faucet, checkAddressCooldown, updateAddressCooldown, on_error.
  handler_run; eexists; (split; [reflexivity|]).
  all: first [ left; cbn; tauto | right; eauto 10 ].
Qed.

Lemma trace_record (e : Event) (w : World) :
  length (trace (record e w)) = S (length (trace w)).
Proof. unfold record. cbn. rewrite length_app. cbn. lia. Qed.

Lemma trace_store (key : string) (v : Z) (w : World) :
  length (trace (store key v w)) = S (length (trace w)).
Proof. unfold store. cbn. rewrite length_app. cbn. lia. Qed.

(** A request is answered without a call to the chain, a console line or a
    write to the map exactly when it is refused for its address (missing,
    empty or invalid) or for its cooldown: the process is then as it was. *)
Theorem untouched_iff_refused_early (req : Request) (w : World) :
  snd (handle req w) = w <->
  In (fst (handle req w))
    [Fulfilled AddressRequired; Fulfilled InvalidAddress; Fulfilled CooldownActive].
Proof.
  unfold faucet, checkAddressCooldown, updateAddressCooldown, on_error.
  handler_run.
  all: first
    [ split; intros _; [cbn; tauto | reflexivity]
    | split; intros Hsame;
      [ exfalso; apply (f_equal (fun w' => length (trace w'))) in Hsame;
        repeat (rewrite trace_record in Hsame || rewrite trace_store in Hsame); lia
      | exfalso; cbn in Hsame; destruct Hsame as [Hr|[Hr|[Hr|[]]]]; discriminate Hr ] ].
Qed.

(** One request issues at most one [sendTransaction] call. *)
Theorem at_most_one_transfer (req : Request) (w : World) :
  (transfers w <= transfers (snd (handle req w)) <= S (transfers w))%nat.
Proof.
  unfold faucet, checkAddressCooldown, updateAddressCooldown, on_error.
  handler_run;
    repeat (rewrite transfers_record || rewrite transfers_store); cbn; lia.
Qed.

(** An answer with status 200 means that the address was valid, that one
    transfer to it was broadcast and that its cooldown was recorded with the
    time read after the broadcast. *)
Theorem success_means_transfer_and_cooldown (req : Request) (w : World) (r : Response) :
  fst (handle req w) = Fulfilled r ->
  status r = 200 ->
  exists a,
    address req = Some a /\
    isValidAddress a = true /\
    transfers (snd (handle req w)) = S (transfers w) /\
    addressCooldowns (snd (handle req w)) =
      <[toLowerCase a := clock 3]> (addressCooldowns w).
Proof.
  unfold faucet, checkAddressCooldown, updateAddressCooldown, on_error.
  handler_run; intros [= <-]; cbn; intros Hstatus; try discriminate Hstatus.
  all: tests_to_props; eexists; repeat split; try eassumption;
    repeat (rewrite transfers_record || rewrite transfers_store); cbn; lia.
Qed.

(** A refused broadcast costs the address nothing: when [sendTransaction]
    rejects, the [catch] block answers by the error code, the cooldown map is
    not written and no confirmation is awaited. *)
Theorem failed_broadcast_keeps_cooldown (a : string) (w : World) (fb rb : Z) (e : Error) :
  falsy a = false ->
  isValidAddress a = true ->
  fst (check a 0 w) = Fulfilled true ->
  getBalance chain faucetWallet_address = Fulfilled fb ->
  MIN_BALANCE <= fb ->
  getBalance chain a = Fulfilled rb ->
  rb <= parseEther "5.0" ->
  sendTransaction chain (transfer a) = Rejected e ->
  handle {| address := Some a |} w =
    (Fulfilled (caught e),
     record (ELog "Faucet error:")
       (record (ESendTransaction (transfer a))
          (record (ELog ("Sending " +:+ formatEther FAUCET_AMOUNT +:+ " ETH to " +:+ a))
             (record (EGetBalance a)
                (record (EGetBalance faucetWallet_address) w))))).
Proof.
  rewrite check_value.
  unfold faucet, checkAddressCooldown, updateAddressCooldown, on_error, caught.
  handler_run; intros; simplify_eq/=; try reflexivity; first [congruence | excluded].
Qed.

(** A balance query that fails, of the reserve or of the recipient, is
    answered by the [catch] block by its error code; no transfer is
    attempted and the cooldown map is not written. *)
Theorem failed_balance_query (a : string) (w : World) (e : Error) :
  falsy a = false ->
  isValidAddress a = true ->
  fst (check a 0 w) = Fulfilled true ->
  getBalance chain faucetWallet_address = Rejected e \/
  (exists fb, getBalance chain faucetWallet_address = Fulfilled fb /\
              MIN_BALANCE <= fb /\ getBalance chain a = Rejected e) ->
  fst (handle {| address := Some a |} w) = Fulfilled (caught e) /\
  transfers (snd (handle {| address := Some a |} w)) = transfers w /\
  addressCooldowns (snd (handle {| address := Some a |} w)) = addressCooldowns w.
Proof.
  rewrite check_value.
  unfold faucet, checkAddressCooldown, updateAddressCooldown, on_error, caught.
  handler_run; intros Hne Hvalid Hcheck [Hq|(fb & Hq & Hmin & Hq')];
    repeat (rewrite transfers_record || rewrite transfers_store); cbn;
    try (repeat split; first [reflexivity | congruence | lia]); excluded.
Qed.

Lemma lower_char_idempotent (c : ascii) : lower_char (lower_char c) = lower_char c.
Proof. destruct c as [[] [] [] [] [] [] [] []]; reflexivity. Qed.

Lemma toLowerCase_idempotent (s : string) : toLowerCase (toLowerCase s) = toLowerCase s.
Proof.
  induction s as [|c s IH]; cbn; [reflexivity | now rewrite lower_char_idempotent, IH].
Qed.

(** The handler writes no entry but that of the address of the request:
    the entry of every other key is as it was. *)
Theorem other_entries_untouched (req : Request) (w : World) (key : string) :
  (forall a, address req = Some a -> key <> toLowerCase a) ->
  addressCooldowns (snd (handle req w)) !! key = addressCooldowns w !! key.
Proof.
  unfold faucet, checkAddressCooldown, updateAddressCooldown, on_error.
  handler_run; intros Hother; try reflexivity.
  all: rewrite lookup_insert_ne; [reflexivity|]; intros Hkey; now apply (Hother _ eq_refl).
Qed.

(** No entry is ever removed, and one request adds at most one. *)
Theorem entries_never_removed (req : Request) (w : World) :
  dom (addressCooldowns w) ⊆ dom (addressCooldowns (snd (handle req w))) /\
  (size (addressCooldowns (snd (handle req w))) <= S (size (addressCooldowns w)))%nat.
Proof.
  unfold faucet, checkAddressCooldown, updateAddressCooldown, on_error.
  handler_run; try (split; [reflexivity | lia]).
  all: split; [rewrite dom_insert_L; set_solver|].
  all: match goal with
       | |- (size (<[?k := ?v]> ?m) <= _)%nat =>
           destruct (m !! k) eqn:Hk;
           [ rewrite map_size_insert_Some by eauto; lia
           | rewrite map_size_insert_None by assumption; lia ]
       end.
Qed.

(** The keys of the map stay lower-cased. *)
Theorem keys_stay_normalised (req : Request) (w : World) :
  keys_normalised w ->
  keys_normalised (snd (handle req w)).
Proof.
  unfold keys_normalised.
  unfold faucet, checkAddressCooldown, updateAddressCooldown, on_error.
  handler_run; intros Hw; try exact Hw.
  all: apply map_Forall_insert_2; [apply toLowerCase_idempotent | exact Hw].
Qed.


End HandlerMore.

(** ** Two requests, one after the other *)

Section Sequences.

Import Server JsString Invariant.
Local Open Scope Z_scope.

Context `{Ethers}.
Variable faucetWallet_address : string.

Local Abbreviation serve chain clock a w :=
  (exec chain clock (faucet faucetWallet_address {| address := Some a |}) 0 w).
Local Abbreviation transfer a :=
  {| to := a; value := FAUCET_AMOUNT; gasLimit := 21000 |}.

(** The map once a request for [a] has been broadcast. *)
Lemma served_cooldowns (chain : Chain) (clock : nat -> Z) (a : string) (w : World)
    (fb rb : Z) (transaction : TransactionResponse) :
  falsy a = false ->
  isValidAddress a = true ->
  fst (exec chain clock (checkAddressCooldown a) 0 w) = Fulfilled true ->
  getBalance chain faucetWallet_address = Fulfilled fb ->
  MIN_BALANCE <= fb ->
  getBalance chain a = Fulfilled rb ->
  rb <= parseEther "5.0" ->
  sendTransaction chain (transfer a) = Fulfilled transaction ->
  addressCooldowns (snd (serve chain clock a w)) =
    <[toLowerCase a := clock 3%nat]> (addressCooldowns w).
Proof.
  intros. rewrite (handle_broadcast faucetWallet_address chain clock a w fb rb transaction)
    by assumption.
  destruct (wait chain transaction 1); reflexivity.
Qed.


(** An hour after the cooldown was recorded the address is served again:
    the second request issues one more [sendTransaction] call, and the new
    time replaces the old one, so that the map holds one entry for the
    address, whatever the case of its letters in the two requests. *)
Theorem served_again_after_window (chain chain' : Chain) (clock clock' : nat -> Z)
    (a b : string) (w : World) (fb rb fb' rb' : Z)
    (transaction transaction' : TransactionResponse) :
  falsy a = false ->
  isValidAddress a = true ->
  fst (exec chain clock (checkAddressCooldown a) 0 w) = Fulfilled true ->
  getBalance chain faucetWallet_address = Fulfilled fb ->
  MIN_BALANCE <= fb ->
  getBalance chain a = Fulfilled rb ->
  rb <= parseEther "5.0" ->
  sendTransaction chain (transfer a) = Fulfilled transaction ->
  falsy b = false ->
  isValidAddress b = true ->
  toLowerCase b = toLowerCase a ->
  ADDRESS_COOLDOWN <= clock' 0%nat - clock 3%nat ->
  getBalance chain' faucetWallet_address = Fulfilled fb' ->
  MIN_BALANCE <= fb' ->
  getBalance chain' b = Fulfilled rb' ->
  rb' <= parseEther "5.0" ->
  sendTransaction chain' (transfer b) = Fulfilled transaction' ->
  transfers (snd (serve chain' clock' b (snd (serve chain clock a w)))) =
    S (transfers (snd (serve chain clock a w))) /\
  addressCooldowns (snd (serve chain' clock' b (snd (serve chain clock a w)))) =
    <[toLowerCase a := clock' 3%nat]> (addressCooldowns w).
Proof.
  intros Hne Hvalid Hcheck Hfb Hmin Hrb Hceil Hsent Hne' Hvalid' Hsame Hout
    Hfb' Hmin' Hrb' Hceil' Hsent'.
  assert (Hcheck' : fst (exec chain' clock' (checkAddressCooldown b) 0
                           (snd (serve chain clock a w))) = Fulfilled true).
  { rewrite check_value, Hsame.
    rewrite (served_cooldowns chain clock a w fb rb transaction) by assumption.
    rewrite lookup_insert_eq. cbn.
    destruct (Z.leb_spec ADDRESS_COOLDOWN (clock' 0%nat - clock 3%nat)); [|lia].
    now rewrite orb_true_r. }
  split.
  - rewrite (handle_broadcast faucetWallet_address chain' clock' b _ fb' rb' transaction')
      by assumption.
    destruct (wait chain' transaction' 1); cbn [snd];
      repeat (rewrite transfers_record || rewrite transfers_store);
      cbn [is_send]; lia.
  - rewrite (served_cooldowns chain' clock' b _ fb' rb' transaction') by assumption.
    rewrite (served_cooldowns chain clock a w fb rb transaction) by assumption.
    rewrite Hsame. apply insert_insert_eq.
Qed.

End Sequences.

(** ** The signing key at start-up *)

Section StartupFacts.

Import JsString JsStringOps Regex Startup.

Lemma key_class (c : ascii) :
  in_class [("0", "9"); ("a", "f"); ("A", "F")]%char c = hex_digit c.
Proof. destruct c as [[] [] [] [] [] [] [] []]; reflexivity. Qed.

Lemma key_forallb (s : string) :
  forallb (in_class [("0", "9"); ("a", "f"); ("A", "F")]%char) (list_ascii_of_string s)
  = all_hex s.
Proof.
  induction s as [|c s IH]; cbn [forallb list_ascii_of_string all_hex];
    [reflexivity | now rewrite key_class, IH].
Qed.

Lemma key_test (k : string) : test key_re k = true <-> key_shape k.
Proof.
  unfold key_re, key_shape. rewrite test_matches, matches_repeat_class.
  now rewrite key_forallb.
Qed.

Lemma hex_digit_not_x (c : ascii) : hex_digit c = true -> Ascii.eqb "x" c = false.
Proof.
  destruct c as [[] [] [] [] [] [] [] []]; vm_compute; intros Hc;
    first [reflexivity | discriminate Hc].
Qed.

Lemma all_hex_append (u v : string) :
  all_hex (u +:+ v) = all_hex u && all_hex v.
Proof.
  induction u as [|c u IH]; [reflexivity|].
  rewrite append_cons. cbn [all_hex]. now rewrite IH, andb_assoc.
Qed.

Lemma length_append (u v : string) :
  String.length (u +:+ v) = (String.length u + String.length v)%nat.
Proof.
  induction u as [|c u IH]; [reflexivity|].
  rewrite append_cons. cbn [String.length]. now rewrite IH.
Qed.

Lemma strip_prefix_Some (pat s rest : string) :
  strip_prefix pat s = Some rest -> s = pat +:+ rest.
Proof.
  revert s. induction pat as [|p pat IH]; intros s; cbn.
  - now intros [= ->].
  - destruct s as [|c s]; [discriminate|].
    destruct (Ascii.eqb_spec p c) as [->|]; [|discriminate].
    intros Hs. rewrite append_cons. f_equal. now apply IH.
Qed.

(** [replace] leaves the string as it is, or removes one occurrence of the
    pattern. *)
Lemma replace_cases (pat rep s : string) :
  replace pat rep s = s \/
  exists u v, s = u +:+ pat +:+ v /\ replace pat rep s = u +:+ rep +:+ v.
Proof.
  induction s as [|c s IH].
  - cbn. destruct (strip_prefix pat EmptyString) as [rest|] eqn:Hp; [|now left].
    right. exists EmptyString, rest. split; [rewrite append_empty_l; now apply strip_prefix_Some | reflexivity].
  - cbn [replace]. destruct (strip_prefix pat (String c s)) as [rest|] eqn:Hp.
    + right. exists EmptyString, rest. split; [rewrite append_empty_l; now apply strip_prefix_Some | reflexivity].
    + destruct IH as [-> | (u & v & -> & ->)]; [now left|].
      right. exists (String c u), v. now rewrite !append_cons.
Qed.

(** Hexadecimal digits hold no [x]: nothing is removed from them, and in
    front of a [0x] they are skipped. *)
Lemma replace_hex (v : string) (u : string) :
  all_hex u = true ->
  replace "0x" "" u = u /\ replace "0x" "" (u +:+ "0x" +:+ v) = u +:+ v.
Proof.
  induction u as [|c u IH]; intros Hu.
  - split; reflexivity.
  - cbn [all_hex] in Hu. apply andb_prop in Hu as [Hc Hu].
    destruct (IH Hu) as [IH1 IH2].
    assert (Hskip : forall rest,
               (rest = u \/ rest = u +:+ "0x" +:+ v) ->
               strip_prefix "0x" (String c rest) = None).
    { intros rest Hrest. cbn [strip_prefix].
      destruct (Ascii.eqb "0" c); [|reflexivity].
      destruct Hrest as [-> | ->].
      - destruct u as [|d u]; [reflexivity|].
        cbn [all_hex] in Hu. apply andb_prop in Hu as [Hd _].
        cbn [strip_prefix]. now rewrite (hex_digit_not_x d Hd).
      - destruct u as [|d u]; [reflexivity|].
        cbn [all_hex] in Hu. apply andb_prop in Hu as [Hd _].
        rewrite append_cons. cbn [strip_prefix].
        now rewrite (hex_digit_not_x d Hd). }
    split.
    + cbn [replace]. rewrite (Hskip u) by now left. now rewrite IH1.
    + rewrite append_cons. cbn [replace].
      rewrite (Hskip (u +:+ "0x" +:+ v)) by now right. now rewrite IH2.
Qed.

(** The server starts exactly on the keys that are sixty-four hexadecimal
    digits once the first [0x] of the variable has been removed: the bare
    digits, the digits behind the prefix, and also the digits with a [0x]
    anywhere among them or after them. *)
Theorem boot_accepts_exactly (raw k : string) :
  boot (Some raw) = Started k <->
  key_shape k /\ (raw = k \/ exists u v, raw = u +:+ "0x" +:+ v /\ k = u +:+ v).
Proof.
  unfold boot. split.
  - destruct (falsy raw); [discriminate|].
    destruct (test key_re (replace "0x" "" raw)) eqn:Htest; cbn; [|discriminate].
    intros [= <-]. split; [now apply key_test|].
    destruct (replace_cases "0x" "" raw) as [-> | (u & v & -> & ->)]; [now left|].
    right. exists u, v. split; reflexivity.
  - intros [[Hlen Hhex] Hraw].
    assert (Hk : replace "0x" "" raw = k /\ falsy raw = false).
    { destruct Hraw as [-> | (u & v & -> & ->)].
      - split; [now apply (replace_hex EmptyString)|].
        destruct k; [discriminate Hlen | reflexivity].
      - rewrite all_hex_append in Hhex. apply andb_prop in Hhex as [Hu _].
        split; [now apply replace_hex|].
        destruct u; reflexivity. }
    destruct Hk as [-> ->].
    assert (Htest : test key_re k = true) by (apply key_test; now split).
    now rewrite Htest.
Qed.

(** The prefix is optional: a key of sixty-four hexadecimal digits starts
    the server with or without [0x] in front, as the same key. *)
Theorem prefix_is_optional (k : string) :
  key_shape k ->
  boot (Some ("0x" +:+ k)) = Started k /\ boot (Some k) = Started k.
Proof.
  intros [Hlen Hhex].
  assert (Htest : test key_re k = true) by (apply key_test; now split).
  unfold boot. split.
  - change (replace "0x" "" ("0x" +:+ k)) with k. cbn. now rewrite Htest.
  - rewrite (proj1 (replace_hex EmptyString k Hhex)).
    destruct k; [discriminate Hlen|]. cbn [falsy]. now rewrite Htest.
Qed.

(** Whatever is refused ends the process with status 1, and a malformed key
    is printed back as it was given. *)
Theorem boot_refusals (env : option string) (status : Z) (complaint : Complaint) :
  boot env = Exit status complaint ->
  status = 1%Z /\
  match complaint with
  | KeyNotSet => env = None \/ env = Some EmptyString
  | KeyMalformed current =>
      env = Some current /\ current <> EmptyString /\
      ~ key_shape (replace "0x" "" current)
  end.
Proof.
  unfold boot. destruct env as [raw|]; [|intros [= <- <-]; split; [reflexivity | now left]].
  destruct raw as [|c raw]; [intros [= <- <-]; split; [reflexivity | now right]|].
  cbn [falsy].
  destruct (test key_re (replace "0x" "" (String c raw))) eqn:Htest; cbn; [discriminate|].
  intros [= <- <-]. split; [reflexivity|]. split; [reflexivity|]. split; [discriminate|].
  intros Hshape. apply key_test in Hshape. congruence.
Qed.

End StartupFacts.

(** ** The form, alone and in front of the server *)

Section FormFacts.

Import Server JsString JsStringOps Form.
Local Open Scope Z_scope.

(** The form posts a request exactly for the addresses of the valid shape,
    one request that carries the address as typed; for any other input it
    posts nothing, shows the message for a missing or an invalid address and
    leaves the loading flag alone. *)
Theorem form_posts_iff_address_shape (text : Wording)
    (network : Request -> Wire.Fetched) (st : State) :
  (address_shape (Form.address st) /\
   snd (handleSubmit text network st) = [{| Server.address := Some (Form.address st) |}]) \/
  (~ address_shape (Form.address st) /\
   handleSubmit text network st =
     (setError (if falsy (Form.address st) then required text else invalid text)
        (setTxHash (Some "") (setSuccess "" (setError "" st))), [])).
Proof.
  unfold handleSubmit.
  destruct (Frontend.isValidAddress (Form.address st)) eqn:Hvalid.
  - left. split; [now apply valid_iff_shape|].
    destruct (Form.address st); [discriminate Hvalid | reflexivity].
  - right. split.
    + intros Hshape. apply valid_iff_shape in Hshape. congruence.
    + destruct (falsy (Form.address st)); reflexivity.
Qed.

(** When the handler has run, the form is idle again and shows an error or
    a success, never both. *)
Theorem submit_ends_idle (text : Wording) (network : Request -> Wire.Fetched)
    (st : State) :
  isLoading st = false ->
  isLoading (fst (handleSubmit text network st)) = false /\
  (Form.error (fst (handleSubmit text network st)) = "" \/
   success (fst (handleSubmit text network st)) = "").
Proof.
  intros Hidle. unfold handleSubmit.
  destruct (falsy (Form.address st)); [cbn; auto|].
  destruct (Frontend.isValidAddress (Form.address st)); cbn; [|auto].
  destruct (requestFunds network (Form.address st)); cbn; auto.
Qed.

Context `{Ethers}.
Variable faucetWallet_address : string.
Variable chain : Chain.
Variable clock : nat -> Z.

(** Every answer of the handler reads, through [fetch], as [ok] with the
    hash and the amount, or as not [ok] with a message that is not empty. *)
Lemma answer_on_the_wire (req : Request) (w : World) (r : Response) :
  fst (exec chain clock (faucet faucetWallet_address req) 0 w) = Fulfilled r ->
  match body r with
  | SuccessBody h am _ =>
      Wire.of_response r =
      Wire.Replied true {| Wire.error := None; Wire.txHash := Some h; Wire.amount := Some am |}
  | ErrorBody m =>
      falsy m = false /\
      Wire.of_response r =
      Wire.Replied false {| Wire.error := Some m; Wire.txHash := None; Wire.amount := None |}
  end.
Proof.
  intros Hr.
  enough (Hin : In r Invariant.refusals \/
                exists h am b, r = json 200 (SuccessBody h am b)).
  { destruct Hin as [Hin | (h & am & b & ->)]; [|reflexivity].
    cbn in Hin. repeat destruct Hin as [<- | Hin]; try (split; reflexivity).
    destruct Hin. }
  revert Hr. unfold faucet, checkAddressCooldown, updateAddressCooldown, on_error.
  handler_run; intros [= <-]; first [left; cbn; tauto | right; eauto].
Qed.

(** The form in front of the server.  For a typed address of the valid
    shape, whatever the handler answers is what the form shows: on a
    success the hash, the success text with the amount of the answer, an
    emptied field; on a refusal the error text of the answer, the field
    kept.  The form is idle in both cases. *)
Theorem form_shows_server_answer (text : Wording) (network : Request -> Wire.Fetched)
    (st : State) (w : World) (r : Response) :
  Frontend.isValidAddress (Form.address st) = true ->
  fst (exec chain clock
         (faucet faucetWallet_address {| Server.address := Some (Form.address st) |}) 0 w)
    = Fulfilled r ->
  network {| Server.address := Some (Form.address st) |} = Wire.of_response r ->
  fst (handleSubmit text network st) =
    match body r with
    | SuccessBody h am _ =>
        {| Form.address := ""; isLoading := false; Form.txHash := Some h;
           Form.error := ""; success := sent text am (Form.address st) |}
    | ErrorBody m =>
        {| Form.address := Form.address st; isLoading := false; Form.txHash := Some "";
           Form.error := failed text m; success := "" |}
    end.
Proof.
  intros Hvalid Hanswer Hnetwork.
  apply answer_on_the_wire in Hanswer.
  unfold handleSubmit, requestFunds. rewrite Hvalid, Hnetwork.
  destruct (Form.address st) as [|c a] eqn:Htyped; [discriminate Hvalid|].
  cbn [falsy negb].
  destruct (body r) as [m | h am b].
  - destruct Hanswer as [Hm ->]. cbn. rewrite Hm.
    unfold setIsLoading, setError, setTxHash, setSuccess. cbn. now rewrite Htyped.
  - rewrite Hanswer. reflexivity.
Qed.

End FormFacts.

(** ** No error escapes a handler *)

Section EscapeFacts.

Import Server JsString Invariant.
Local Open Scope Z_scope.

Context `{Ethers}.
Variable faucetWallet_address : string.

Lemma ends_within_advance {R : Type} (ok : R -> Prop) (t : Z) (p : prog R) :
  forall w, ends_within ok p -> ends_within ok (fst (advance t p w)).
Proof.
  induction p as [r | e | k IH | key k IH | key v k IH | line k IH
                 | account k _ | tx k _ | tx confirms k _]; intros w Hp; cbn in *;
    auto.
Qed.

Lemma ends_within_resume {R : Type} (ok : R -> Prop) (chain : Chain) (p : prog R) :
  ends_within ok p -> ends_within ok (resume chain p).
Proof. destruct p; cbn; auto. Qed.

Lemma ends_within_run_to_await {R : Type} (ok : R -> Prop) (t : Z) (p : prog R)
    (w : World) :
  ends_within ok p -> ends_within ok (fst (run_to_await t p w)).
Proof.
  intros Hp. unfold run_to_await.
  pose proof (ends_within_advance ok t p w Hp) as Hadv.
  now destruct (advance t p w).
Qed.

(** The handler, as a tree: no branch throws, every leaf is an allowed
    answer. *)
Lemma faucet_ends_within (req : Request) :
  ends_within allowed (faucet faucetWallet_address req).
Proof.
  unfold faucet, checkAddressCooldown, updateAddressCooldown, on_error, allowed,
    refusals.
  repeat first [progress cbn [ends_within try_catch bind settle now cooldowns_get
                               cooldowns_set console_log await_getBalance
                               await_sendTransaction await_wait]
               | intro
               | handler_case ].
  all: first [ left; cbn; tauto | right; eauto ].
Qed.

Lemma step_keeps_order (s : Process) (a : Action) :
  faucet_arrival faucetWallet_address a ->
  Forall (ends_within allowed) (tasks s) ->
  Forall (ends_within allowed) (tasks (step s a)).
Proof.
  intros Ha Hs. destruct a as [t handler | t i chain]; cbn.
  - destruct Ha as [req ->].
    pose proof (ends_within_run_to_await allowed t (faucet faucetWallet_address req)
                  (world s) (faucet_ends_within req)) as Hnew.
    destruct (run_to_await t (faucet faucetWallet_address req) (world s)) as [p w'].
    cbn. apply Forall_app. split; [exact Hs | now constructor].
  - destruct (tasks s !! i) as [suspended|] eqn:Hi; [|exact Hs].
    assert (Hsusp : ends_within allowed suspended)
      by (exact (proj1 (Forall_lookup _ _) Hs i suspended Hi)).
    pose proof (ends_within_run_to_await allowed t (resume chain suspended) (world s)
                  (ends_within_resume allowed chain suspended Hsusp)) as Hnew.
    destruct (run_to_await t (resume chain suspended) (world s)) as [p w'].
    cbn. now apply Forall_insert.
Qed.

Lemma ends_within_in_order (task : prog Response) :
  ends_within allowed task -> in_order task.
Proof. destruct task; cbn; auto. Qed.

(** No error escapes a handler.  In whatever order the event loop runs the
    handlers in flight, and whether their awaited calls are fulfilled,
    rejected or still to settle, a handler of [POST /api/faucet] never ends
    by throwing, and one that has ended has answered with one of the eight
    refusals or with a success that carries the fixed amount. *)
Theorem handlers_never_throw (w : World) (schedule : list Action) :
  Forall (faucet_arrival faucetWallet_address) schedule ->
  Forall in_order (tasks (run {| world := w; tasks := [] |} schedule)).
Proof.
  intros Hschedule.
  enough (Hall : Forall (ends_within allowed)
                   (tasks (run {| world := w; tasks := [] |} schedule))).
  { eapply Forall_impl; [exact Hall|]. apply ends_within_in_order. }
  unfold run.
  assert (Hstart : Forall (ends_within allowed) (tasks {| world := w; tasks := [] |}))
    by constructor.
  revert Hstart. generalize ({| world := w; tasks := [] |}).
  induction Hschedule as [|a rest Ha _ IH]; intros s Hs; cbn; [exact Hs|].
  apply IH, step_keeps_order; assumption.
Qed.

End EscapeFacts.

(** ** What is sent *)

Section TransferFacts.

Import Server JsString.
Local Open Scope Z_scope.

Context `{Ethers}.
Variable faucetWallet_address : string.
Variable chain : Chain.
Variable clock : nat -> Z.

(** The only transaction a request ever asks the wallet to send is the
    fixed amount, with a gas limit of 21000, to the address of the request,
    which passed the validator: any other [sendTransaction] call of the
    trace was there before. *)
Theorem only_the_fixed_transfer (req : Request) (w : World) (tx : TransactionRequest) :
  In (ESendTransaction tx)
     (trace (snd (exec chain clock (faucet faucetWallet_address req) 0 w))) ->
  In (ESendTransaction tx) (trace w) \/
  exists a,
    address req = Some a /\ isValidAddress a = true /\
    tx = {| to := a; value := parseEther "0.1"; gasLimit := 21000 |}.
Proof.
  unfold faucet, checkAddressCooldown, updateAddressCooldown, on_error.
  handler_run; intros Hin; rewrite ?in_app_iff in Hin; cbn [In] in Hin;
    decompose [or] Hin; try discriminate; try contradiction; try (now left).
  all: match goal with
       | Hsent : ESendTransaction _ = ESendTransaction _ |- _ => injection Hsent as <-
       end.
  all: right; tests_to_props; eauto.
Qed.

End TransferFacts.

(** ** The theorems of the last sections at concrete requests *)

Section MoreScenarios.

Import Server JsString JsStringOps EthersModel Scenario Outage Invariant.
Local Open Scope Z_scope.

Local Abbreviation serve chain clock a w :=
  (exec chain clock (faucet faucet_address (request a)) 0 w).

Ltac by_evaluation := vm_compute; first [reflexivity | discriminate].

Lemma success_means_transfer_and_cooldown_witness :
  exists a,
    address (request recipient) = Some a /\
    isValidAddress a = true /\
    transfers (snd (serve healthy clock recipient fresh)) = S (transfers fresh) /\
    addressCooldowns (snd (serve healthy clock recipient fresh)) =
      <[toLowerCase a := clock 3]> (addressCooldowns fresh).
Proof.
  apply (success_means_transfer_and_cooldown faucet_address healthy clock
           (request recipient) fresh served_answer); by_evaluation.
Defined.

Lemma failed_broadcast_keeps_cooldown_witness :
  addressCooldowns (snd (serve refusing clock recipient fresh)) = addressCooldowns fresh /\
  fst (serve refusing clock recipient fresh) = Fulfilled InsufficientFunds.
Proof.
  rewrite (failed_broadcast_keeps_cooldown faucet_address refusing clock recipient
             fresh (10 * ETH) 0 out_of_gas); try by_evaluation.
  split; reflexivity.
Defined.

Lemma failed_balance_query_witness :
  fst (serve offline clock recipient fresh) = Fulfilled (caught network_down) /\
  transfers (snd (serve offline clock recipient fresh)) = transfers fresh /\
  addressCooldowns (snd (serve offline clock recipient fresh)) = addressCooldowns fresh.
Proof.
  apply (failed_balance_query faucet_address offline clock recipient fresh network_down).
  - by_evaluation.
  - by_evaluation.
  - by_evaluation.
  - left. by_evaluation.
Defined.

Lemma other_entries_untouched_witness :
  addressCooldowns (snd (serve healthy clock recipient other_served))
    !! "0xABCDEF0000000000000000000000000000000000" =
  addressCooldowns other_served !! "0xABCDEF0000000000000000000000000000000000".
Proof.
  apply (other_entries_untouched faucet_address healthy clock (request recipient)
           other_served).
  intros a [= <-]. by_evaluation.
Defined.

Lemma keys_stay_normalised_witness :
  keys_normalised (snd (serve healthy clock recipient_capitals fresh)).
Proof.
  apply (keys_stay_normalised faucet_address healthy clock (request recipient_capitals)
           fresh).
  unfold keys_normalised. refine (bool_decide_unpack _ _). by_evaluation.
Defined.

Lemma handle_keeps_timestamps_positive_witness :
  timestamps_positive (snd (serve healthy clock recipient fresh)).
Proof.
  apply (handle_keeps_timestamps_positive faucet_address healthy clock
           (request recipient) fresh).
  - by_evaluation.
  - unfold timestamps_positive. refine (bool_decide_unpack _ _). by_evaluation.
Defined.


Lemma served_again_after_window_witness :
  transfers
    (snd (serve healthy an_hour_later recipient_capitals
            (snd (serve healthy clock recipient fresh)))) =
    S (transfers (snd (serve healthy clock recipient fresh))) /\
  addressCooldowns
    (snd (serve healthy an_hour_later recipient_capitals
            (snd (serve healthy clock recipient fresh)))) =
    <[toLowerCase recipient := an_hour_later 3]> (addressCooldowns fresh).
Proof.
  apply (served_again_after_window faucet_address healthy healthy clock an_hour_later
           recipient recipient_capitals fresh (10 * ETH) 0 (10 * ETH) 0 sent sent);
    by_evaluation.
Defined.

Lemma cooldown_recorded_while_waiting_witness :
  exists k,
    run {| world := fresh; tasks := [] |}
      [Arrive arrival (faucet faucet_address (request recipient));
       Settle (arrival + 1) 0 healthy; Settle (arrival + 2) 0 healthy;
       Settle (arrival + 3) 0 healthy] =
    {| world :=
         record (EWait sent 1)
           (store (toLowerCase recipient) (arrival + 3)
              (record (ESendTransaction
                         {| to := recipient; value := FAUCET_AMOUNT; gasLimit := 21000 |})
                 (record (ELog ("Sending " +:+ formatEther FAUCET_AMOUNT
                                  +:+ " ETH to " +:+ recipient))
                    (record (EGetBalance recipient)
                       (record (EGetBalance faucet_address) fresh)))));
       tasks := [AwaitWait sent 1 k] |}.
Proof.
  apply (cooldown_recorded_while_waiting faucet_address recipient fresh healthy
           (10 * ETH) 0 sent arrival (arrival + 1) (arrival + 2) (arrival + 3));
    by_evaluation.
Defined.

Lemma only_the_fixed_transfer_witness :
  In (ESendTransaction {| to := recipient; value := ETH / 10; gasLimit := 21000 |})
     (trace fresh) \/
  exists a,
    address (request recipient) = Some a /\ isValidAddress a = true /\
    {| to := recipient; value := ETH / 10; gasLimit := 21000 |} =
    {| to := a; value := parseEther "0.1"; gasLimit := 21000 |}.
Proof.
  apply (only_the_fixed_transfer faucet_address healthy clock (request recipient) fresh).
  vm_compute. tauto.
Defined.

Lemma handlers_never_throw_witness :
  Forall in_order (tasks raced).
Proof.
  apply (handlers_never_throw faucet_address fresh).
  repeat (constructor; [first [exact I | eexists; reflexivity]|]). constructor.
Defined.

Lemma prefix_is_optional_witness :
  Startup.boot (Some ("0x" +:+ sample_key)) = Startup.Started sample_key /\
  Startup.boot (Some sample_key) = Startup.Started sample_key.
Proof.
  apply (prefix_is_optional sample_key). split; by_evaluation.
Defined.

Lemma boot_refusals_witness :
  1 = 1 /\
  Some ("0X" +:+ sample_key) = Some ("0X" +:+ sample_key) /\
  "0X" +:+ sample_key <> EmptyString /\
  ~ Startup.key_shape (replace "0x" "" ("0X" +:+ sample_key)).
Proof.
  apply (boot_refusals (Some ("0X" +:+ sample_key)) 1
           (Startup.KeyMalformed ("0X" +:+ sample_key))).
  by_evaluation.
Defined.

(** The prefix is removed where it first occurs, also in the middle of the
    digits. *)
Example boot_prefix_in_the_middle :
  Startup.boot
    (Some "4c0883a69102937d6231471b5dbb62040xfe5129617082792ae468d01a3f362318")
  = Startup.Started sample_key.
Proof. reflexivity. Qed.

Lemma submit_ends_idle_witness :
  Form.isLoading (fst (Form.handleSubmit Form.terminal transport typed)) = false /\
  (Form.error (fst (Form.handleSubmit Form.terminal transport typed)) = "" \/
   Form.success (fst (Form.handleSubmit Form.terminal transport typed)) = "").
Proof.
  apply (submit_ends_idle Form.terminal transport typed). by_evaluation.
Defined.

Lemma form_shows_server_answer_witness :
  fst (Form.handleSubmit Form.terminal transport typed) =
    {| Form.address := ""; Form.isLoading := false; Form.txHash := Some "0xfeed";
       Form.error := ""; Form.success := "TRANSACTION COMPLETE: 0.1 ETH SENT" |} /\
  fst (Form.handleSubmit Form.friendly transport typed) =
    {| Form.address := ""; Form.isLoading := false; Form.txHash := Some "0xfeed";
       Form.error := "";
       Form.success :=
         "Successfully sent 0.1 ETH to 0x742d35cc6635bb00000000000000000000000000" |}.
Proof.
  split.
  - apply (form_shows_server_answer faucet_address healthy clock Form.terminal
             transport typed fresh served_answer); by_evaluation.
  - apply (form_shows_server_answer faucet_address healthy clock Form.friendly
             transport typed fresh served_answer); by_evaluation.
Defined.

End MoreScenarios.
